(** * setup-java [src/util.ts]: version resolution helpers

    A shallow embedding of the helpers of [src/util.ts] that resolve and
    match versions, pick an archive format and build request headers,
    together with the parts of the run-time they call: JavaScript strings
    and regular expressions, Node's [path] module (POSIX flavour) and the
    [semver] package (7.6, default options: strict parsing, pre-releases
    excluded from ranges).

    Strings are sequences of code units below 256.  The numbers that the
    code handles are non-negative integers and are kept in [N]; where
    JavaScript converts a run of digits to a number, the rounding to a
    double is written out.  A function that may throw returns a
    [completion].  What the code reads from its environment
    ([process.platform], [core.getInput], the constant of
    [src/constants.ts]) is an argument of the embedded function. *)

From Stdlib Require Import NArith ZArith List Ascii String Bool Lia.
From Stdlib Require DecimalString.
From stdpp Require Import base option strings gmap.

Local Open Scope N_scope.
Local Open Scope list_scope.

Set Default Proof Using "Type".

(* ===================================================================== *)
(** ** JavaScript strings *)
(* ===================================================================== *)

Module JS.

Abbreviation chars := (list ascii).

Definition code (a : ascii) : N := N_of_ascii a.

Definition in_range (lo hi : string) (a : ascii) : bool :=
  match lo, hi with
  | String l _, String h _ => (code l <=? code a) && (code a <=? code h)
  | _, _ => false
  end.

Definition is_char (c : string) (a : ascii) : bool :=
  match c with
  | String x _ => Ascii.eqb x a
  | EmptyString => false
  end.

(** [\d] *)
Definition is_digit : ascii -> bool := in_range "0" "9".

(** [\s]: TAB, LF, VT, FF, CR, SP and NBSP (the white space and line
    terminator code units below 256). *)
Definition is_space (a : ascii) : bool :=
  let n := code a in
  ((9 <=? n) && (n <=? 13)) || (n =? 32) || (n =? 160).

(** Line terminators below 256: LF and CR. *)
Definition is_line_terminator (a : ascii) : bool :=
  let n := code a in (n =? 10) || (n =? 13).

Definition chars_eqb (s t : chars) : bool :=
  String.eqb (string_of_list_ascii s) (string_of_list_ascii t).

(** [s.startsWith(p)] *)
Fixpoint startsWith (p s : chars) : bool :=
  match p, s with
  | [], _ => true
  | a :: p', b :: s' => Ascii.eqb a b && startsWith p' s'
  | _ :: _, [] => false
  end.

(** [s.endsWith(p)] *)
Definition endsWith (p s : chars) : bool := startsWith (rev p) (rev s).

(** [s.substring(n)] *)
Definition substring (n : nat) (s : chars) : chars := skipn n s.

(** [s.trim()] *)
Fixpoint trimStart (s : chars) : chars :=
  match s with
  | a :: s' => if is_space a then trimStart s' else s
  | [] => []
  end.

Definition trim (s : chars) : chars := rev (trimStart (rev (trimStart s))).

(** [s.split(sep)] for a non-empty literal separator. *)
Fixpoint split_aux (sep : chars) (cur : chars) (skip : nat) (s : chars)
  : list chars :=
  match s with
  | [] => [rev cur]
  | a :: s' =>
      match skip with
      | S k => split_aux sep cur k s'
      | O =>
          if startsWith sep s
          then rev cur :: split_aux sep [] (List.length sep - 1) s'
          else split_aux sep (a :: cur) O s'
      end
  end.

Definition split (sep : chars) (s : chars) : list chars :=
  split_aux sep [] O s.

(** [s.split(/\s+/)] *)
Fixpoint split_ws_aux (cur : chars) (skipping : bool) (s : chars)
  : list chars :=
  match s with
  | [] => [rev cur]
  | a :: s' =>
      if is_space a
      then if skipping then split_ws_aux cur true s'
           else rev cur :: split_ws_aux [] true s'
      else split_ws_aux (a :: cur) false s'
  end.

Definition split_ws (s : chars) : list chars := split_ws_aux [] false s.

(** [xs.join(sep)] *)
Fixpoint join (sep : chars) (xs : list chars) : chars :=
  match xs with
  | [] => []
  | [x] => x
  | x :: rest => x ++ sep ++ join sep rest
  end.

(** Decimal rendering of a non-negative integer, [String(n)]. *)
Definition of_N (n : N) : chars :=
  list_ascii_of_string (DecimalString.NilZero.string_of_uint (N.to_uint n)).

(** Value of a string of decimal digits, [+s], as an exact integer. *)
Definition digits_value (s : chars) : N :=
  fold_left (fun acc a => 10 * acc + (code a - 48)) s 0.

(** [+s] as JavaScript computes it: the nearest IEEE double, ties to
    even.  Exact below [2^53]. *)
Definition to_double (n : N) : N :=
  if n <? 2 ^ 53 then n
  else
    let e := N.log2 n - 52 in
    let q := N.shiftr n e in
    let r := n - N.shiftl q e in
    let half := N.shiftl 1 (e - 1) in
    let q' := if (half <? r) || ((half =? r) && N.odd q) then q + 1 else q in
    N.shiftl q' e.

Definition to_number (s : chars) : N := to_double (digits_value s).

(** [/^[0-9]+$/.test(s)] *)
Definition all_digits (s : chars) : bool :=
  negb (Nat.eqb (List.length s) 0) && forallb is_digit s.

Definition toLowerCase_char (a : ascii) : ascii :=
  if in_range "A" "Z" a then ascii_of_N (code a + 32) else a.

Definition toLowerCase (s : chars) : chars := map toLowerCase_char s.

(** A value of type [string | undefined]: [falsy x] is [!x], and [text x]
    is its rendering inside a template or a replacement pattern. *)
Definition falsy (x : option chars) : bool :=
  match x with
  | None | Some [] => true
  | Some _ => false
  end.

Definition text (x : option chars) : chars := default [] x.

(** [s.toUpperCase()], as UTF-16 code units: the upper case of a code unit
    below 256 can lie above 255 (micro sign, y with diaeresis) or be two
    units long (sharp s). *)
Definition toUpperCase_unit (a : ascii) : list N :=
  let n := code a in
  if (97 <=? n) && (n <=? 122) then [n - 32]
  else if n =? 181 then [924]
  else if n =? 223 then [83; 83]
  else if (224 <=? n) && (n <=? 254) && negb (n =? 247) then [n - 32]
  else if n =? 255 then [376]
  else [n].

Definition toUpperCase_units (s : chars) : list N := flat_map toUpperCase_unit s.

(** The code units of a string. *)
Definition units (s : chars) : list N := map code s.

End JS.

Notation "'str' s" := (list_ascii_of_string s) (at level 9, s at level 0, only parsing).

(* ===================================================================== *)
(** ** Regular expressions (ECMAScript backtracking semantics) *)
(* ===================================================================== *)

Module Regex.
Import JS.

(** Pattern syntax.  [Grp] is a capturing group; its index is assigned by
    [compile] in the order of the opening parentheses.  [Behind p] is a
    look-behind whose body inspects one code unit ([None] is the start of
    the input). *)
Inductive regex : Type :=
| Eps
| Chr (p : ascii -> bool)
| Seq (r1 r2 : regex)
| Alt (r1 r2 : regex)
| Rep (lo : nat) (hi : option nat) (r : regex)
| Grp (i : nat) (r : regex)
| Bol
| Eol
| Behind (p : option ascii -> bool).

Fixpoint number (r : regex) (n : nat) : regex * nat :=
  match r with
  | Seq r1 r2 =>
      let '(r1', n1) := number r1 n in
      let '(r2', n2) := number r2 n1 in (Seq r1' r2', n2)
  | Alt r1 r2 =>
      let '(r1', n1) := number r1 n in
      let '(r2', n2) := number r2 n1 in (Alt r1' r2', n2)
  | Rep lo hi r1 => let '(r1', n1) := number r1 n in (Rep lo hi r1', n1)
  | Grp _ r1 => let '(r1', n1) := number r1 (S n) in (Grp n r1', n1)
  | _ => (r, n)
  end.

Fixpoint groups (r : regex) : list nat :=
  match r with
  | Seq r1 r2 | Alt r1 r2 => groups r1 ++ groups r2
  | Rep _ _ r1 => groups r1
  | Grp i r1 => i :: groups r1
  | _ => []
  end.

(** A compiled expression: the numbered pattern and the [m] flag. *)
Record RegExp := { pattern : regex; multiline : bool }.

Definition compile (r : regex) : RegExp :=
  {| pattern := fst (number r 1); multiline := false |}.
Definition compile_m (r : regex) : RegExp :=
  {| pattern := fst (number r 1); multiline := true |}.

(** Captures: the most recent binding of each group; an absent index is
    [undefined]. *)
Definition captures := list (nat * chars).

Fixpoint capture (c : captures) (i : nat) : option chars :=
  match c with
  | [] => None
  | (j, v) :: c' => if Nat.eqb i j then Some v else capture c' i
  end.

Definition clear (gs : list nat) (c : captures) : captures :=
  List.filter (fun '(j, _) => negb (existsb (Nat.eqb j) gs)) c.

Definition cont := option ascii -> chars -> captures -> option (chars * captures).

Definition orelse {A} (x y : option A) : option A :=
  match x with Some _ => x | None => y end.

Definition below (n : nat) (hi : option nat) : bool :=
  match hi with None => true | Some h => Nat.ltb n h end.

(** [run ml r k prev s c]: match [r] at the current position ([prev] is
    the code unit before it, [s] the rest of the input) and pass the new
    position to [k]; alternatives are tried in order, quantifiers are
    greedy, and an iteration past the minimum must consume input. *)
Fixpoint run (ml : bool) (r : regex) (k : cont)
         (prev : option ascii) (s : chars) (c : captures) {struct r}
  : option (chars * captures) :=
  match r with
  | Eps => k prev s c
  | Chr p =>
      match s with
      | a :: s' => if p a then k (Some a) s' c else None
      | [] => None
      end
  | Seq r1 r2 => run ml r1 (run ml r2 k) prev s c
  | Alt r1 r2 => orelse (run ml r1 k prev s c) (run ml r2 k prev s c)
  | Rep lo hi r1 =>
      (fix loop (fuel count : nat) (prev : option ascii) (s : chars)
           (c : captures) {struct fuel} : option (chars * captures) :=
         match fuel with
         | O => None
         | S fuel' =>
             if below count hi then
               let d := fun prev' s' c' =>
                 if Nat.leb lo count && Nat.eqb (List.length s') (List.length s)
                 then None
                 else loop fuel' (S count) prev' s' c' in
               let z := run ml r1 d prev s (clear (groups r1) c) in
               if Nat.ltb count lo then z else orelse z (k prev s c)
             else k prev s c
         end) (lo + List.length s + 1)%nat O prev s c
  | Grp i r1 =>
      run ml r1
        (fun prev' s' c' =>
           k prev' s'
             ((i, firstn (List.length s - List.length s') s) :: clear [i] c'))
        prev s c
  | Bol =>
      match prev with
      | None => k prev s c
      | Some a => if ml && is_line_terminator a then k prev s c else None
      end
  | Eol =>
      match s with
      | [] => k prev s c
      | a :: _ => if ml && is_line_terminator a then k prev s c else None
      end
  | Behind p => if p prev then k prev s c else None
  end.

(** The result of [RegExp.prototype.exec]. *)
Record MatchResult := {
  before : chars;      (* input up to the match *)
  matched : chars;     (* group 0 *)
  caps : captures;
  after : chars        (* input after the match *)
}.

Definition group (m : MatchResult) (i : nat) : option chars := capture (caps m) i.

Definition last_of (prev : option ascii) (s : chars) : option ascii :=
  match rev s with a :: _ => Some a | [] => prev end.

(** Leftmost match at or after the current position. *)
Fixpoint search (re : RegExp) (prev : option ascii) (skipped : chars)
         (s : chars) : option MatchResult :=
  match run (multiline re) (pattern re) (fun _ s' c' => Some (s', c')) prev s [] with
  | Some (rest, c) =>
      Some {| before := rev skipped;
              matched := firstn (List.length s - List.length rest) s;
              caps := c; after := rest |}
  | None =>
      match s with
      | [] => None
      | a :: s' => search re (Some a) (a :: skipped) s'
      end
  end.

(** [s.match(re)] / [re.exec(s)] without the [g] flag. *)
Definition exec (re : RegExp) (s : chars) : option MatchResult :=
  search re None [] s.

(** [s.replace(re, f)] without the [g] flag. *)
Definition replace (re : RegExp) (f : MatchResult -> chars) (s : chars) : chars :=
  match exec re s with
  | Some m => before m ++ f m ++ after m
  | None => s
  end.

(** [s.replace(re, f)] with the [g] flag: every match, left to right;
    after an empty match the scan advances by one code unit. *)
Fixpoint replace_loop (fuel : nat) (re : RegExp) (f : MatchResult -> chars)
         (prev : option ascii) (s : chars) : chars :=
  match fuel with
  | O => s
  | S fuel' =>
      match search re prev [] s with
      | None => s
      | Some m =>
          let out := before m ++ f m in
          let prev' := last_of prev (before m ++ matched m) in
          match matched m, after m with
          | [], a :: rest =>
              out ++ a :: replace_loop fuel' re f (Some a) rest
          | [], [] => out
          | _ :: _, rest => out ++ replace_loop fuel' re f prev' rest
          end
      end
  end.

Definition replace_all (re : RegExp) (f : MatchResult -> chars) (s : chars) : chars :=
  replace_loop (S (List.length s)) re f None s.

(** Pattern shorthands. *)
Definition lit_char (a : ascii) : regex := Chr (Ascii.eqb a).

Fixpoint lit_chars (s : chars) : regex :=
  match s with
  | [] => Eps
  | [a] => lit_char a
  | a :: s' => Seq (lit_char a) (lit_chars s')
  end.

Definition lit (s : string) : regex := lit_chars (list_ascii_of_string s).
Definition grp (r : regex) : regex := Grp 0 r.
Definition opt (r : regex) : regex := Rep 0 (Some 1%nat) r.
Definition star (r : regex) : regex := Rep 0 None r.
Definition plus (r : regex) : regex := Rep 1 None r.
Definition rep (lo hi : nat) (r : regex) : regex := Rep lo (Some hi) r.
Definition digit : regex := Chr is_digit.
Definition space : regex := Chr is_space.
Definition nonspace : regex := Chr (fun a => negb (is_space a)).

Fixpoint seq (rs : list regex) : regex :=
  match rs with
  | [] => Eps
  | [r] => r
  | r :: rs' => Seq r (seq rs')
  end.

End Regex.

(* ===================================================================== *)
(** ** Completions: a returned value or a thrown exception *)
(* ===================================================================== *)

Inductive error : Type :=
| TypeError (message : list ascii).

Inductive completion (A : Type) : Type :=
| Return (a : A)
| Throw (e : error).

Arguments Return {A} a.
Arguments Throw {A} e.

Definition and_then {A B} (x : completion A) (f : A -> completion B) : completion B :=
  match x with
  | Return a => f a
  | Throw e => Throw e
  end.

Notation "'let*' x := c 'in' k" := (and_then c (fun x => k))
  (at level 10, x name, c at level 100, k at level 200).

(** [try { return c } catch { return null }] *)
Definition try_or_null {A} (x : completion A) : option A :=
  match x with
  | Return a => Some a
  | Throw _ => None
  end.

Fixpoint mapM {A B} (f : A -> completion B) (xs : list A) : completion (list B) :=
  match xs with
  | [] => Return []
  | x :: xs' => let* y := f x in let* ys := mapM f xs' in Return (y :: ys)
  end.

(* ===================================================================== *)
(** ** The [semver] package *)
(* ===================================================================== *)

Module semver.
Import JS Regex.

(** *** internal/constants.js *)
Definition MAX_LENGTH : nat := 256.
Definition MAX_SAFE_INTEGER : N := 9007199254740991.
Definition MAX_SAFE_COMPONENT_LENGTH : nat := 16.
Definition MAX_SAFE_BUILD_LENGTH : nat := 250.

(** *** internal/re.js

    The patterns are the ones the library matches with: in each, [\s*]
    and [\s+] are bounded by 1, [\d*] and [\d+] by [MAX_LENGTH], and the
    letter-dash-number class by [MAX_SAFE_BUILD_LENGTH]. *)
Module re.
Definition ws0 : regex := rep 0 1 space.                     (* \s* *)
Definition ws1 : regex := rep 1 1 space.                     (* \s+ *)
Definition digits0 : regex := rep 0 MAX_LENGTH digit.        (* \d* *)
Definition digits1 : regex := rep 1 MAX_LENGTH digit.        (* \d+ *)
Definition is_letterdashnumber (a : ascii) : bool :=
  in_range "a" "z" a || in_range "A" "Z" a || in_range "0" "9" a || is_char "-" a.
Definition LETTERDASHNUMBER : regex := Chr is_letterdashnumber.
Definition letterdash : regex :=                             (* [a-zA-Z-] *)
  Chr (fun a => in_range "a" "z" a || in_range "A" "Z" a || is_char "-" a).

(* 0|[1-9]\d* *)
Definition NUMERICIDENTIFIER : regex :=
  Alt (lit "0") (Seq (Chr (in_range "1" "9")) digits0).
(* \d+ *)
Definition NUMERICIDENTIFIERLOOSE : regex := digits1.
(* \d*[a-zA-Z-][a-zA-Z0-9-]* *)
Definition NONNUMERICIDENTIFIER : regex :=
  seq [digits0; letterdash; rep 0 MAX_SAFE_BUILD_LENGTH LETTERDASHNUMBER].
(* (NUM)\.(NUM)\.(NUM) *)
Definition MAINVERSION : regex :=
  seq [grp NUMERICIDENTIFIER; lit "."; grp NUMERICIDENTIFIER; lit ".";
       grp NUMERICIDENTIFIER].
Definition MAINVERSIONLOOSE : regex :=
  seq [grp NUMERICIDENTIFIERLOOSE; lit "."; grp NUMERICIDENTIFIERLOOSE;
       lit "."; grp NUMERICIDENTIFIERLOOSE].
(* (?:NUM|NONNUM) *)
Definition PRERELEASEIDENTIFIER : regex :=
  Alt NUMERICIDENTIFIER NONNUMERICIDENTIFIER.
Definition PRERELEASEIDENTIFIERLOOSE : regex :=
  Alt NUMERICIDENTIFIERLOOSE NONNUMERICIDENTIFIER.
(* (?:-(ID(?:\.ID){0,})) *)
Definition PRERELEASE : regex :=
  Seq (lit "-")
      (grp (Seq PRERELEASEIDENTIFIER
                (star (Seq (lit ".") PRERELEASEIDENTIFIER)))).
(* (?:-?(ID(?:\.ID){0,})) *)
Definition PRERELEASELOOSE : regex :=
  Seq (opt (lit "-"))
      (grp (Seq PRERELEASEIDENTIFIERLOOSE
                (star (Seq (lit ".") PRERELEASEIDENTIFIERLOOSE)))).
(* [a-zA-Z0-9-]+ *)
Definition BUILDIDENTIFIER : regex := rep 1 MAX_SAFE_BUILD_LENGTH LETTERDASHNUMBER.
(* (?:\+(ID(?:\.ID){0,})) *)
Definition BUILD : regex :=
  Seq (lit "+")
      (grp (Seq BUILDIDENTIFIER (star (Seq (lit ".") BUILDIDENTIFIER)))).
(* v?MAINVERSION PRERELEASE? BUILD? *)
Definition FULLPLAIN : regex :=
  seq [opt (lit "v"); MAINVERSION; opt PRERELEASE; opt BUILD].
Definition FULL : RegExp := compile (seq [Bol; FULLPLAIN; Eol]).
(* [v=\s]*MAINVERSIONLOOSE PRERELEASELOOSE? BUILD? *)
Definition veqs (a : ascii) : bool := is_char "v" a || is_char "=" a || is_space a.
Definition LOOSEPLAIN : regex :=
  seq [star (Chr veqs); MAINVERSIONLOOSE; opt PRERELEASELOOSE; opt BUILD].
(* ((?:<|>)?=?) *)
Definition GTLT : regex :=
  grp (Seq (opt (Alt (lit "<") (lit ">"))) (opt (lit "="))).
(* NUM|x|X|\* *)
Definition XRANGEIDENTIFIER : regex :=
  Alt NUMERICIDENTIFIER (Alt (lit "x") (Alt (lit "X") (lit "*"))).
(* [v=\s]*(XID)(?:\.(XID)(?:\.(XID)(?:PRERELEASE)?BUILD?)?)? *)
Definition XRANGEPLAIN : regex :=
  seq [star (Chr veqs); grp XRANGEIDENTIFIER;
       opt (seq [lit "."; grp XRANGEIDENTIFIER;
                 opt (seq [lit "."; grp XRANGEIDENTIFIER;
                           opt PRERELEASE; opt BUILD])])].
Definition XRANGE : RegExp := compile (seq [Bol; GTLT; ws0; XRANGEPLAIN; Eol]).
(* (^|[^\d])(\d{1,16})(?:\.(\d{1,16}))?(?:\.(\d{1,16}))?(?:$|[^\d]) *)
Definition nondigit : regex := Chr (fun a => negb (is_digit a)).
Definition component : regex := rep 1 MAX_SAFE_COMPONENT_LENGTH digit.
Definition COERCE : RegExp :=
  compile (seq [grp (Alt Bol nondigit); grp component;
                opt (Seq (lit ".") (grp component));
                opt (Seq (lit ".") (grp component));
                Alt Eol nondigit]).
(* (?:~>?) *)
Definition LONETILDE : regex := Seq (lit "~") (opt (lit ">")).
Definition TILDETRIM : RegExp := compile (seq [grp ws0; LONETILDE; ws1]).
Definition TILDE : RegExp := compile (seq [Bol; LONETILDE; XRANGEPLAIN; Eol]).
(* (?:\^) *)
Definition LONECARET : regex := lit "^".
Definition CARETTRIM : RegExp := compile (seq [grp ws0; LONECARET; ws1]).
Definition CARET : RegExp := compile (seq [Bol; LONECARET; XRANGEPLAIN; Eol]).
(* ^GTLT\s*(FULLPLAIN)$|^$ *)
Definition COMPARATOR : RegExp :=
  compile (Alt (seq [Bol; GTLT; ws0; grp FULLPLAIN; Eol]) (Seq Bol Eol)).
(* (\s{0,})GTLT\s*(LOOSEPLAIN|XRANGEPLAIN) *)
Definition COMPARATORTRIM : RegExp :=
  compile (seq [grp ws0; GTLT; ws0; grp (Alt LOOSEPLAIN XRANGEPLAIN)]).
(* ^\s*(XRANGEPLAIN)\s+-\s+(XRANGEPLAIN)\s*$ *)
Definition HYPHENRANGE : RegExp :=
  compile (seq [Bol; ws0; grp XRANGEPLAIN; ws1; lit "-"; ws1;
                grp XRANGEPLAIN; ws0; Eol]).
(* (<|>)?=?\s*\* *)
Definition STAR : RegExp :=
  compile (seq [opt (grp (Alt (lit "<") (lit ">"))); opt (lit "="); ws0; lit "*"]).
(* ^\s*>=\s*0\.0\.0\s*$ *)
Definition GTE0 : RegExp :=
  compile (seq [Bol; ws0; lit ">="; ws0; lit "0.0.0"; ws0; Eol]).
End re.

(** *** internal/identifiers.js *)

(** A pre-release identifier is a number or a string; build identifiers
    are strings. *)
Inductive identifier : Type :=
| Num (n : N)
| Id (s : chars).

(* /^[0-9]+$/.test(a) *)
Definition numeric (a : identifier) : bool :=
  match a with
  | Num _ => true
  | Id s => all_digits s
  end.

(* +a, for an identifier on which [numeric] holds *)
Definition numeric_value (a : identifier) : N :=
  match a with
  | Num n => n
  | Id s => to_number s
  end.

(* a === b *)
Definition strict_equal (a b : identifier) : bool :=
  match a, b with
  | Num n, Num m => n =? m
  | Id s, Id t => chars_eqb s t
  | _, _ => false
  end.

(* s < t on strings: code units, left to right *)
Fixpoint chars_ltb (s t : chars) : bool :=
  match s, t with
  | _, [] => false
  | [], _ :: _ => true
  | a :: s', b :: t' =>
      if code a <? code b then true
      else if code b <? code a then false
      else chars_ltb s' t'
  end.

Definition compareIdentifiers (a b : identifier) : Z :=
  let anum := numeric a in
  let bnum := numeric b in
  if anum && bnum then
    let a := numeric_value a in
    let b := numeric_value b in
    if a =? b then 0%Z else if a <? b then (-1)%Z else 1%Z
  else if strict_equal a b then 0%Z
  else if anum && negb bnum then (-1)%Z
  else if bnum && negb anum then 1%Z
  else
    (* neither is numeric, so both are strings *)
    match a, b with
    | Id s, Id t => if chars_ltb s t then (-1)%Z else 1%Z
    | _, _ => 1%Z
    end.

(* x || y on numbers *)
Definition or_else (x y : Z) : Z := if (x =? 0)%Z then y else x.

(** *** classes/semver.js *)

Record SemVer : Type := {
  major : N;
  minor : N;
  patch : N;
  prerelease : list identifier;
  build : list chars
}.

Definition render (a : identifier) : chars :=
  match a with
  | Num n => of_N n
  | Id s => s
  end.

(** [format()], the value of the [version] field, which is also what
    [toString()] returns. *)
Definition version (v : SemVer) : chars :=
  of_N (major v) ++ str "." ++ of_N (minor v) ++ str "." ++ of_N (patch v)
  ++ match prerelease v with
     | [] => []
     | ids => str "-" ++ join (str ".") (map render ids)
     end.

Definition numberify (id : chars) : identifier :=
  if all_digits id then
    let num := to_number id in
    if num <? MAX_SAFE_INTEGER then Num num else Id id
  else Id id.

(** [new SemVer(version)] on a string. *)
Definition new_SemVer (ver : chars) : completion SemVer :=
  if Nat.ltb MAX_LENGTH (List.length ver) then
    Throw (TypeError (str "version is longer than 256 characters"))
  else
    match exec re.FULL (trim ver) with
    | None => Throw (TypeError (str "Invalid Version: " ++ ver))
    | Some m =>
        let major := to_number (text (group m 1)) in
        let minor := to_number (text (group m 2)) in
        let patch := to_number (text (group m 3)) in
        if MAX_SAFE_INTEGER <? major then
          Throw (TypeError (str "Invalid major version"))
        else if MAX_SAFE_INTEGER <? minor then
          Throw (TypeError (str "Invalid minor version"))
        else if MAX_SAFE_INTEGER <? patch then
          Throw (TypeError (str "Invalid patch version"))
        else
          Return {|
            major := major; minor := minor; patch := patch;
            prerelease :=
              if falsy (group m 4) then []
              else map numberify (split (str ".") (text (group m 4)));
            build :=
              if falsy (group m 5) then []
              else split (str ".") (text (group m 5))
          |}
    end.

Definition compareMain (this other : SemVer) : Z :=
  or_else (compareIdentifiers (Num (major this)) (Num (major other)))
    (or_else (compareIdentifiers (Num (minor this)) (Num (minor other)))
       (compareIdentifiers (Num (patch this)) (Num (patch other)))).

(** The [do ... while (++i)] loop shared by [comparePre] and
    [compareBuild]: walk both arrays in step. *)
Fixpoint compareList (xs ys : list identifier) : Z :=
  match xs, ys with
  | [], [] => 0%Z
  | _ :: _, [] => 1%Z
  | [], _ :: _ => (-1)%Z
  | a :: xs', b :: ys' =>
      if strict_equal a b then compareList xs' ys'
      else compareIdentifiers a b
  end.

Definition comparePre (this other : SemVer) : Z :=
  match prerelease this, prerelease other with
  | _ :: _, [] => (-1)%Z
  | [], _ :: _ => 1%Z
  | [], [] => 0%Z
  | xs, ys => compareList xs ys
  end.

Definition compare (this other : SemVer) : Z :=
  if chars_eqb (version other) (version this) then 0%Z
  else or_else (compareMain this other) (comparePre this other).

Definition SemVer_compareBuild (this other : SemVer) : Z :=
  compareList (map Id (build this)) (map Id (build other)).

(** *** functions/ *)

Definition parse (ver : chars) : option SemVer := try_or_null (new_SemVer ver).

Definition valid (ver : chars) : option chars := version <$> parse ver.

Definition compareBuild (a b : chars) : completion Z :=
  let* versionA := new_SemVer a in
  let* versionB := new_SemVer b in
  Return (or_else (compare versionA versionB)
                  (SemVer_compareBuild versionA versionB)).

(** [major(a)] on a version object or on a string. *)
Definition major_of (a : SemVer + chars) : completion N :=
  match a with
  | inl v => Return (major v)
  | inr s => let* v := new_SemVer s in Return (major v)
  end.

Definition coerce (ver : chars) : option SemVer :=
  match exec re.COERCE ver with
  | None => None
  | Some m =>
      let major := text (group m 2) in
      let minor := if falsy (group m 3) then str "0" else text (group m 3) in
      let patch := if falsy (group m 4) then str "0" else text (group m 4) in
      parse (major ++ str "." ++ minor ++ str "." ++ patch)
  end.

(** *** classes/comparator.js *)

(** [semver = None] is the [ANY] comparator. *)
Record Comparator : Type := {
  operator : chars;
  semver : option SemVer
}.

Definition value (c : Comparator) : chars :=
  match semver c with
  | None => []
  | Some v => operator c ++ version v
  end.

Definition new_Comparator (comp : chars) : completion Comparator :=
  let comp := join (str " ") (split_ws (trim comp)) in
  match exec re.COMPARATOR comp with
  | None => Throw (TypeError (str "Invalid comparator: " ++ comp))
  | Some m =>
      let operator := text (group m 1) in
      let operator := if chars_eqb operator (str "=") then [] else operator in
      if falsy (group m 2) then
        Return {| operator := operator; semver := None |}
      else
        let* v := new_SemVer (text (group m 2)) in
        Return {| operator := operator; semver := Some v |}
  end.

(* functions/cmp.js *)
Definition cmp (a : SemVer) (op : chars) (b : SemVer) : completion bool :=
  let op_is o := chars_eqb op (str o) in
  if op_is "===" then Return (chars_eqb (version a) (version b))
  else if op_is "!==" then Return (negb (chars_eqb (version a) (version b)))
  else if op_is "" || op_is "=" || op_is "==" then Return (compare a b =? 0)%Z
  else if op_is "!=" then Return (negb (compare a b =? 0)%Z)
  else if op_is ">" then Return (0 <? compare a b)%Z
  else if op_is ">=" then Return (0 <=? compare a b)%Z
  else if op_is "<" then Return (compare a b <? 0)%Z
  else if op_is "<=" then Return (compare a b <=? 0)%Z
  else Throw (TypeError (str "Invalid operator: " ++ op)).

Definition Comparator_test (c : Comparator) (v : SemVer) : completion bool :=
  match semver c with
  | None => Return true
  | Some sv => cmp v (operator c) sv
  end.

(** *** classes/range.js *)

Definition isNullSet (c : Comparator) : bool := chars_eqb (value c) (str "<0.0.0-0").
Definition isAny (c : Comparator) : bool := chars_eqb (value c) [].

Definition isX (id : option chars) : bool :=
  falsy id || chars_eqb (toLowerCase (text id)) (str "x")
  || chars_eqb (text id) (str "*").

(* +M + 1, rendered *)
Definition incr (M : chars) : chars := of_N (to_double (to_number M + 1)).

Definition replaceTilde (comp : chars) : chars :=
  replace re.TILDE (fun r =>
    let M := group r 1 in let m := group r 2 in
    let p := group r 3 in let pr := group r 4 in
    if isX M then []
    else if isX m then
      str ">=" ++ text M ++ str ".0.0 <" ++ incr (text M) ++ str ".0.0-0"
    else if isX p then
      str ">=" ++ text M ++ str "." ++ text m ++ str ".0 <"
      ++ text M ++ str "." ++ incr (text m) ++ str ".0-0"
    else if negb (falsy pr) then
      str ">=" ++ text M ++ str "." ++ text m ++ str "." ++ text p
      ++ str "-" ++ text pr
      ++ str " <" ++ text M ++ str "." ++ incr (text m) ++ str ".0-0"
    else
      str ">=" ++ text M ++ str "." ++ text m ++ str "." ++ text p
      ++ str " <" ++ text M ++ str "." ++ incr (text m) ++ str ".0-0") comp.

Definition replaceTildes (comp : chars) : chars :=
  join (str " ") (map replaceTilde (split_ws (trim comp))).

Definition replaceCaret (comp : chars) : chars :=
  replace re.CARET (fun r =>
    let M := group r 1 in let m := group r 2 in
    let p := group r 3 in let pr := group r 4 in
    let is0 x := chars_eqb (text x) (str "0") in
    let lower := str ">=" ++ text M ++ str "." ++ text m ++ str "." ++ text p in
    if isX M then []
    else if isX m then
      str ">=" ++ text M ++ str ".0.0 <" ++ incr (text M) ++ str ".0.0-0"
    else if isX p then
      if is0 M then
        str ">=" ++ text M ++ str "." ++ text m ++ str ".0 <"
        ++ text M ++ str "." ++ incr (text m) ++ str ".0-0"
      else
        str ">=" ++ text M ++ str "." ++ text m ++ str ".0 <"
        ++ incr (text M) ++ str ".0.0-0"
    else
      let lower := if negb (falsy pr) then lower ++ str "-" ++ text pr else lower in
      if is0 M then
        if is0 m then
          lower ++ str " <" ++ text M ++ str "." ++ text m ++ str "."
          ++ incr (text p) ++ str "-0"
        else
          lower ++ str " <" ++ text M ++ str "." ++ incr (text m) ++ str ".0-0"
      else
        lower ++ str " <" ++ incr (text M) ++ str ".0.0-0") comp.

Definition replaceCarets (comp : chars) : chars :=
  join (str " ") (map replaceCaret (split_ws (trim comp))).

Definition replaceXRange (comp : chars) : chars :=
  replace re.XRANGE (fun r =>
    let ret := matched r in
    let gtlt := text (group r 1) in
    let M := group r 2 in let m := group r 3 in let p := group r 4 in
    let xM := isX M in
    let xm := xM || isX m in
    let xp := xm || isX p in
    let anyX := xp in
    let gtlt := if chars_eqb gtlt (str "=") && anyX then [] else gtlt in
    if xM then
      if chars_eqb gtlt (str ">") || chars_eqb gtlt (str "<")
      then str "<0.0.0-0" else str "*"
    else if negb (chars_eqb gtlt []) && anyX then
      let M := text M in
      let m := if xm then str "0" else text m in
      let p := str "0" in
      let '(gtlt, M, m) :=
        if chars_eqb gtlt (str ">") then
          if xm then (str ">=", incr M, str "0") else (str ">=", M, incr m)
        else if chars_eqb gtlt (str "<=") then
          if xm then (str "<", incr M, m) else (str "<", M, incr m)
        else (gtlt, M, m) in
      let pr := if chars_eqb gtlt (str "<") then str "-0" else [] in
      gtlt ++ M ++ str "." ++ m ++ str "." ++ p ++ pr
    else if xm then
      str ">=" ++ text M ++ str ".0.0 <" ++ incr (text M) ++ str ".0.0-0"
    else if xp then
      str ">=" ++ text M ++ str "." ++ text m ++ str ".0 <"
      ++ text M ++ str "." ++ incr (text m) ++ str ".0-0"
    else ret) (trim comp).

Definition replaceXRanges (comp : chars) : chars :=
  join (str " ") (map replaceXRange (split_ws comp)).

Definition replaceStars (comp : chars) : chars :=
  replace re.STAR (fun _ => []) (trim comp).

Definition replaceGTE0 (comp : chars) : chars :=
  replace re.GTE0 (fun _ => []) (trim comp).

Definition parseComparator (comp : chars) : chars :=
  replaceStars (replaceXRanges (replaceTildes (replaceCarets comp))).

(* ($0, from, fM, fm, fp, fpr, fb, to, tM, tm, tp, tpr) *)
Definition hyphenReplace (r : MatchResult) : chars :=
  let fM := group r 2 in let fm := group r 3 in
  let fp := group r 4 in
  let tM := group r 8 in let tm := group r 9 in
  let tp := group r 10 in let tpr := group r 11 in
  let from :=
    if isX fM then []
    else if isX fm then str ">=" ++ text fM ++ str ".0.0"
    else if isX fp then str ">=" ++ text fM ++ str "." ++ text fm ++ str ".0"
    else str ">=" ++ text (group r 1) in
  let to :=
    if isX tM then []
    else if isX tm then str "<" ++ incr (text tM) ++ str ".0.0-0"
    else if isX tp then
      str "<" ++ text tM ++ str "." ++ incr (text tm) ++ str ".0-0"
    else if negb (falsy tpr) then
      str "<=" ++ text tM ++ str "." ++ text tm ++ str "." ++ text tp
      ++ str "-" ++ text tpr
    else str "<=" ++ text (group r 7) in
  trim (from ++ str " " ++ to).

(** [rangeMap.set(comp.value, comp)]: a new key goes last, a known key
    keeps its place. *)
Fixpoint map_set (k : chars) (c : Comparator) (m : list (chars * Comparator))
  : list (chars * Comparator) :=
  match m with
  | [] => [(k, c)]
  | (k', c') :: m' =>
      if chars_eqb k k' then (k, c) :: m' else (k', c') :: map_set k c m'
  end.

Fixpoint collect (comps : list Comparator) (m : list (chars * Comparator))
  : list Comparator + list (chars * Comparator) :=
  match comps with
  | [] => inr m
  | comp :: rest =>
      if isNullSet comp then inl [comp]
      else collect rest (map_set (value comp) comp m)
  end.

Definition parseRange (range : chars) : completion (list Comparator) :=
  let range := replace re.HYPHENRANGE hyphenReplace range in
  let range :=
    replace_all re.COMPARATORTRIM
      (fun r => text (group r 1) ++ text (group r 2) ++ text (group r 3)) range in
  let range := replace_all re.TILDETRIM (fun r => text (group r 1) ++ str "~") range in
  let range := replace_all re.CARETTRIM (fun r => text (group r 1) ++ str "^") range in
  let rangeList :=
    map replaceGTE0
      (split_ws (join (str " ") (map parseComparator (split (str " ") range)))) in
  let* comparators := mapM new_Comparator rangeList in
  match collect comparators [] with
  | inl nullset => Return nullset
  | inr rangeMap =>
      let rangeMap :=
        if Nat.ltb 1 (List.length rangeMap)
        then List.filter (fun '(k, _) => negb (chars_eqb k [])) rangeMap
        else rangeMap in
      Return (map snd rangeMap)
  end.

Record Range : Type := { set : list (list Comparator) }.

Definition is_star (c : list Comparator) : bool :=
  match c with
  | [x] => isAny x
  | _ => false
  end.

Definition new_Range (range : chars) : completion Range :=
  let raw := join (str " ") (split_ws (trim range)) in
  let* sets := mapM (fun r => parseRange (trim r)) (split (str "||") raw) in
  let set := List.filter (fun c => negb (Nat.eqb (List.length c) 0)) sets in
  match set with
  | [] => Throw (TypeError (str "Invalid SemVer Range: " ++ raw))
  | [_] => Return {| set := set |}
  | first :: _ =>
      let set :=
        List.filter (fun c => match c with x :: _ => negb (isNullSet x) | [] => true end)
               set in
      match set with
      | [] => Return {| set := [first] |}
      | [_] => Return {| set := set |}
      | _ =>
          match List.find is_star set with
          | Some c => Return {| set := [c] |}
          | None => Return {| set := set |}
          end
      end
  end.

(** The [range] property: the comparators of each set joined by a space,
    the sets joined by [||]. *)
Definition Range_range (r : Range) : chars :=
  trim (join (str "||")
          (map (fun comps => trim (join (str " ") (map value comps))) (set r))).

Fixpoint all_test (comps : list Comparator) (v : SemVer) : completion bool :=
  match comps with
  | [] => Return true
  | c :: rest =>
      let* b := Comparator_test c v in
      if b then all_test rest v else Return false
  end.

Definition allows_prerelease (v : SemVer) (c : Comparator) : bool :=
  match semver c with
  | None => false
  | Some allowed =>
      negb (Nat.eqb (List.length (prerelease allowed)) 0)
      && (major allowed =? major v) && (minor allowed =? minor v)
      && (patch allowed =? patch v)
  end.

Definition testSet (comps : list Comparator) (v : SemVer) : completion bool :=
  let* ok := all_test comps v in
  if negb ok then Return false
  else if negb (Nat.eqb (List.length (prerelease v)) 0)
  then Return (existsb (allows_prerelease v) comps)
  else Return true.

Fixpoint any_set (sets : list (list Comparator)) (v : SemVer) : completion bool :=
  match sets with
  | [] => Return false
  | s :: rest =>
      let* b := testSet s v in
      if b then Return true else any_set rest v
  end.

(** [range.test(version)] on a version string. *)
Definition Range_test (r : Range) (ver : chars) : completion bool :=
  match ver with
  | [] => Return false
  | _ =>
      match new_SemVer ver with
      | Throw _ => Return false
      | Return v => any_set (set r) v
      end
  end.

(** [satisfies(version, range)] *)
Definition satisfies (ver range : chars) : completion bool :=
  match new_Range range with
  | Throw _ => Return false
  | Return r => Range_test r ver
  end.

(** [validRange(range)] *)
Definition validRange (range : chars) : option chars :=
  match new_Range range with
  | Throw _ => None
  | Return r =>
      match Range_range r with
      | [] => Some (str "*")
      | s => Some s
      end
  end.

End semver.

(* ===================================================================== *)
(** ** Node's [path] module (POSIX) *)
(* ===================================================================== *)

Module path.
Import JS.

Definition is_slash : ascii -> bool := is_char "/".

Fixpoint drop_while (p : ascii -> bool) (s : chars) : chars :=
  match s with
  | a :: s' => if p a then drop_while p s' else s
  | [] => []
  end.

Fixpoint take_while (p : ascii -> bool) (s : chars) : chars :=
  match s with
  | a :: s' => if p a then a :: take_while p s' else []
  | [] => []
  end.

(** [path.basename(p)]: the last component, trailing separators
    ignored. *)
Definition basename (p : chars) : chars :=
  rev (take_while (fun a => negb (is_slash a)) (drop_while is_slash (rev p))).

(** [path.extname(p)]: from the last dot of the last component to its
    end; empty when there is no dot, when the dot is the first character
    of the component, or when the component is [..]. *)
Definition extname (p : chars) : chars :=
  let base := rev (basename p) in
  let ext := take_while (fun a => negb (is_char "." a)) base in
  match skipn (List.length ext) base with
  | [] => []
  | [_] => []
  | [_; d] =>
      if is_char "." d && Nat.eqb (List.length ext) 0 then []
      else str "." ++ rev ext
  | _ => str "." ++ rev ext
  end.


(** [normalizeString]: the segments of the path with the empty ones and
    [.] dropped and [..] resolved; [res] holds the segments kept so far,
    the last one first. *)
Definition normalize_step (allowAboveRoot : bool) (res : list chars) (segment : chars)
  : list chars :=
  if chars_eqb segment [] || chars_eqb segment (str ".") then res
  else if chars_eqb segment (str "..") then
    match res with
    | last :: before =>
        if chars_eqb last (str "..")
        then if allowAboveRoot then segment :: res else res
        else before
    | [] => if allowAboveRoot then [segment] else []
    end
  else segment :: res.

Definition normalizeString (p : chars) (allowAboveRoot : bool) : chars :=
  JS.join (str "/")
    (rev (fold_left (normalize_step allowAboveRoot) (split (str "/") p) [])).

(** [path.normalize(p)] *)
Definition normalize (p : chars) : chars :=
  match p with
  | [] => str "."
  | c0 :: _ =>
      let isAbsolute := is_slash c0 in
      let trailingSeparator :=
        match rev p with
        | a :: _ => is_slash a
        | [] => false
        end in
      match normalizeString p (negb isAbsolute) with
      | [] => if isAbsolute then str "/"
              else if trailingSeparator then str "./" else str "."
      | res =>
          (if isAbsolute then str "/" else [])
          ++ res ++ (if trailingSeparator then str "/" else [])
      end
  end.

(** [path.join(...args)] *)
Definition join (args : list chars) : chars :=
  match List.filter (fun arg => negb (Nat.eqb (List.length arg) 0)) args with
  | [] => str "."
  | parts => normalize (JS.join (str "/") parts)
  end.

End path.

(* ===================================================================== *)
(** ** src/util.ts *)
(* ===================================================================== *)

Module util.
Import JS Regex.

(** The three extractors of [@actions/tool-cache]: the embedding records
    which one is called and on which file. *)
Inductive tc : Type :=
| extractTar (file : chars)
| extractZip (file : chars)
| extract7z (file : chars).

(** [extension ||= ...]: the argument when it is truthy, otherwise the
    format read off the file name. *)
Definition format_of (toolPath : chars) (extension : option chars) : chars :=
  if falsy extension then
    if endsWith (str ".tar.gz") toolPath then str "tar.gz"
    else substring 1 (path.extname toolPath)
  else text extension.

Definition extractJdkFile (toolPath : chars) (extension : option chars) : tc :=
  let extension := format_of toolPath extension in
  if chars_eqb extension (str "tar.gz") || chars_eqb extension (str "tar")
  then extractTar toolPath
  else if chars_eqb extension (str "zip") then extractZip toolPath
  else extract7z toolPath.

(** [platform] is [process.platform]. *)
Definition getDownloadArchiveExtension (platform : string) : string :=
  if String.eqb platform "win32" then "zip" else "tar.gz".

Definition isVersionSatisfies (range ver : chars) : completion bool :=
  let by_range := semver.satisfies ver range in
  match semver.valid range with
  | Some _ =>
      match semver.parse range with
      | Some semRange =>
          if Nat.ltb 0 (List.length (semver.build semRange)) then
            let* c := semver.compareBuild range ver in
            Return (c =? 0)%Z
          else by_range
      | None => by_range
      end
  | None => by_range
  end.

(** The two expressions of [getVersionFromFileContent], each with the
    index of its [version] group.

    [/^(java\s+)(?:\S*-)?v?(?<version>(\d+)(\.\d+)?(\.\d+)?(\+\d+)?(-ea(\.\d+)?)?)$/m] *)
Definition toolVersionsRegExp : RegExp * nat :=
  (compile_m
     (seq [Bol; grp (Seq (lit "java") (plus space));
           opt (Seq (star nonspace) (lit "-")); opt (lit "v");
           grp (seq [grp (plus digit);
                     opt (grp (Seq (lit ".") (plus digit)));
                     opt (grp (Seq (lit ".") (plus digit)));
                     opt (grp (Seq (lit "+") (plus digit)));
                     opt (grp (Seq (lit "-ea")
                                   (opt (grp (Seq (lit ".") (plus digit))))))]);
           Eol]),
   2%nat).

(** [/(?<version>(?<=(^|\s|-))(\d+\S{0,}))(\s|$)/]; the look-behind holds
    at the start of the input, after white space and after a dash. *)
Definition after_boundary (prev : option ascii) : bool :=
  match prev with
  | None => true
  | Some a => is_space a || is_char "-" a
  end.

Definition plainRegExp : RegExp * nat :=
  (compile
     (seq [grp (Seq (Behind after_boundary)
                    (grp (Seq (plus digit) (star nonspace))));
           grp (Alt space Eol)]),
   1%nat).

(* By convention, action expects version 8 in the format `8.*` instead of `1.8` *)
Definition avoidOldNotation (content : chars) : chars :=
  if startsWith (str "1.") content then substring 2 content else content.

(** The value of [version] in [getVersionFromFileContent]: a string, a
    [SemVer] object or [null]. *)
Definition version_value : Type := option (chars + semver.SemVer).

(* !version *)
Definition is_falsy (v : version_value) : bool :=
  match v with
  | None | Some (inl []) => true
  | Some _ => false
  end.

(* version.toString() *)
Definition toString (v : chars + semver.SemVer) : chars :=
  match v with
  | inl s => s
  | inr sv => semver.version sv
  end.

(* semver.coerce(version) *)
Definition coerce_value (v : chars + semver.SemVer) : option semver.SemVer :=
  match v with
  | inl s => semver.coerce s
  | inr sv => Some sv
  end.

(** The token that the expression for [versionFile] finds in [content];
    empty when there is none. *)
Definition fileContent (content versionFile : chars) : chars :=
  let versionFileName := path.basename versionFile in
  let '(javaVersionRegExp, version) :=
    if chars_eqb versionFileName (str ".tool-versions")
    then toolVersionsRegExp else plainRegExp in
  match exec javaVersionRegExp content with
  | Some m => text (group m version)
  | None => []
  end.

(** Lines 124-129: the range or version that the token stands for. *)
Definition resolve (fileContent : chars) : version_value :=
  let tentativeVersion := avoidOldNotation fileContent in
  let rawVersion := hd [] (split (str "-") tentativeVersion) in
  match semver.validRange rawVersion with
  | Some _ => Some (inl tentativeVersion)
  | None => inr <$> semver.coerce tentativeVersion
  end.

Section Constants.

(** [DISTRIBUTIONS_ONLY_MAJOR_VERSION] of [src/constants.ts]. *)
Variable DISTRIBUTIONS_ONLY_MAJOR_VERSION : list chars.

(* DISTRIBUTIONS_ONLY_MAJOR_VERSION.includes(distributionName) *)
Definition only_major (distributionName : chars) : bool :=
  existsb (chars_eqb distributionName) DISTRIBUTIONS_ONLY_MAJOR_VERSION.

(** Lines 134-139, for a [version] that is not falsy. *)
Definition finish (distributionName : chars) (version : chars + semver.SemVer)
  : completion (option chars) :=
  if only_major distributionName then
    (* semver.coerce(version) ?? version *)
    let coerceVersion :=
      match coerce_value version with
      | Some sv => inl sv
      | None =>
          match version with
          | inl s => inr s
          | inr sv => inl sv
          end
      end in
    let* major := semver.major_of coerceVersion in
    Return (Some (of_N major))
  else Return (Some (toString version)).

(** [null] is [None]; the calls to [core.debug] are left out. *)
Definition getVersionFromFileContent
           (content distributionName versionFile : chars)
  : completion (option chars) :=
  let fileContent := fileContent content versionFile in
  if falsy (Some fileContent) then Return None
  else
    let version := resolve fileContent in
    if is_falsy version then Return None
    else
      match version with
      | Some v => finish distributionName v
      | None => Return None
      end.

End Constants.

(** [version] is an array of numbers or a string; [versionArray] holds
    the components as [join] renders them. *)
Definition versionArray (version : list N + chars) : list chars :=
  match version with
  | inl numbers => map of_N numbers
  | inr s => split (str ".") s
  end.

Definition convertVersionToSemver (version : list N + chars) : chars :=
  (* Some distributions may use semver-like notation (12.10.2.1, 12.10.2.1.1) *)
  let versionArray := versionArray version in
  let mainVersion := join (str ".") (firstn 3 versionArray) in
  if Nat.ltb 3 (List.length versionArray)
  then mainVersion ++ str "+" ++ join (str ".") (skipn 3 versionArray)
  else mainVersion.

(** [token] is [core.getInput('token')]; the result is the header
    object. *)
Definition getGitHubHttpHeaders (token : string) : gmap string string :=
  let auth := if String.eqb token "" then None else Some ("token " +:+ token) in
  let headers : gmap string string :=
    {[ "accept" := "application/vnd.github.VERSION.raw" ]} in
  match auth with
  | Some a => <[ "authorization" := a ]> headers
  | None => headers
  end.

(** [getInput] is [core.getInput]. *)
Definition getBooleanInput (getInput : chars -> chars) (inputName : chars)
           (defaultValue : bool) : bool :=
  let value :=
    if falsy (Some (getInput inputName))
    then (if defaultValue then str "true" else str "false")
    else getInput inputName in
  bool_decide (toUpperCase_units value = units (str "TRUE")).



End util.

(* ===================================================================== *)
(** ** Vocabulary of the statements *)
(* ===================================================================== *)

Import JS.

(** The token of a file that is not [.tool-versions], and of one that is. *)
Definition plain_token (content : chars) : chars :=
  match Regex.exec (fst util.plainRegExp) content with
  | Some m => text (Regex.group m (snd util.plainRegExp))
  | None => []
  end.

Definition tool_versions_token (content : chars) : chars :=
  match Regex.exec (fst util.toolVersionsRegExp) content with
  | Some m => text (Regex.group m (snd util.toolVersionsRegExp))
  | None => []
  end.

(** The token once the legacy prefix is gone, and the part of it that is
    checked as a range. *)
Definition tentativeVersion (token : chars) : chars := util.avoidOldNotation token.
Definition rawVersion (token : chars) : chars :=
  hd [] (split (str "-") (tentativeVersion token)).

(** The part of a string before its first dash. *)
Fixpoint upto_dash (s : chars) : chars :=
  match s with
  | [] => []
  | a :: s' => if is_char "-" a then [] else a :: upto_dash s'
  end.

(** Two lists of identifiers that the loop of [comparePre] and
    [compareBuild] takes for equal: they agree one by one to the end, or
    up to a pair of numeric identifiers that differ as values of the
    language and have the same number; nothing after such a pair is
    looked at. *)
Inductive identifiers_match : list semver.identifier -> list semver.identifier -> Prop :=
| match_end : identifiers_match [] []
| match_same a xs ys :
    identifiers_match xs ys -> identifiers_match (a :: xs) (a :: ys)
| match_number a b xs ys :
    a <> b ->
    semver.numeric a = true -> semver.numeric b = true ->
    semver.numeric_value a = semver.numeric_value b ->
    identifiers_match (a :: xs) (b :: ys).

(** [sv] is the same version as [sr] for [compareBuild]: equal without
    the build metadata (the same [version] text, or the same major, minor
    and patch with matching pre-release identifiers), and with matching
    build identifiers. *)
Definition same_build_version (sr sv : semver.SemVer) : Prop :=
  (semver.version sv = semver.version sr
   \/ (semver.major sr = semver.major sv
       /\ semver.minor sr = semver.minor sv
       /\ semver.patch sr = semver.patch sv
       /\ identifiers_match (semver.prerelease sr) (semver.prerelease sv)))
  /\ identifiers_match (map semver.Id (semver.build sr))
                       (map semver.Id (semver.build sv)).

(** The number of iterations that a quantifier [{lo,hi}] allows. *)
Definition within (lo : nat) (hi : option nat) (n : nat) : Prop :=
  match hi with
  | Some h => (n <= h /\ (lo <= n \/ n = h))%nat
  | None => (lo <= n)%nat
  end.

(** The strings that a pattern can consume, assertions aside. *)
Fixpoint matches (r : Regex.regex) (w : chars) : Prop :=
  match r with
  | Regex.Chr p => exists a, w = [a] /\ p a = true
  | Regex.Seq r1 r2 => exists w1 w2, w = w1 ++ w2 /\ matches r1 w1 /\ matches r2 w2
  | Regex.Alt r1 r2 => matches r1 w \/ matches r2 w
  | Regex.Rep lo hi r1 =>
      exists ws, w = concat ws /\ Forall (matches r1) ws /\ within lo hi (List.length ws)
  | Regex.Grp _ r1 => matches r1 w
  | _ => w = []
  end.

(** Every character class of the pattern lies within [Q]. *)
Fixpoint classes_within (Q : ascii -> Prop) (r : Regex.regex) : Prop :=
  match r with
  | Regex.Chr p => forall a, p a = true -> Q a
  | Regex.Seq r1 r2 | Regex.Alt r1 r2 => classes_within Q r1 /\ classes_within Q r2
  | Regex.Rep _ _ r1 | Regex.Grp _ r1 => classes_within Q r1
  | _ => True
  end.

Definition consumes_nothing (r : Regex.regex) : Prop :=
  match r with
  | Regex.Eps | Regex.Bol | Regex.Eol | Regex.Behind _ => True
  | _ => False
  end.

(** Whatever the pattern consumes begins with a character of [Q]. *)
Fixpoint leading (Q : ascii -> Prop) (r : Regex.regex) : Prop :=
  match r with
  | Regex.Chr p => forall a, p a = true -> Q a
  | Regex.Seq r1 r2 => leading Q r1 \/ (consumes_nothing r1 /\ leading Q r2)
  | Regex.Alt r1 r2 => leading Q r1 /\ leading Q r2
  | Regex.Rep lo hi r1 =>
      (1 <= lo)%nat /\ (forall h, hi = Some h -> (1 <= h)%nat) /\ leading Q r1
  | Regex.Grp _ r1 => leading Q r1
  | _ => False
  end.

(** Decimal digits, and the characters that are not white space. *)
Definition is_digit_char (a : ascii) : Prop := is_digit a = true.
Definition not_space (a : ascii) : Prop := is_space a = false.

(** [t] is a version token of [content]: a piece of it that begins with a
    digit and has no white space. *)
Definition token_of (content t : chars) : Prop :=
  exists pre post a t',
    content = pre ++ t ++ post /\ t = a :: t'
    /\ is_digit a = true /\ Forall not_space t.

(** The operators that a parsed comparator can carry, and the comparators
    that carry one of them or stand for any version. *)
Definition comparison_operators : list chars :=
  [[]; str "<"; str ">"; str "<="; str ">="].

Definition well_formed (c : semver.Comparator) : Prop :=
  semver.semver c = None \/ In (semver.operator c) comparison_operators.

(** The captures of the groups outside [gs] are the same in [c] and [c']. *)
Definition frame (gs : list nat) (c c' : Regex.captures) : Prop :=
  forall i, ~ In i gs -> Regex.capture c' i = Regex.capture c i.

(** The loop that [Regex.run] runs for a quantifier, [body] being the
    matcher of the quantified pattern and [gs] its groups. *)
Definition rep_loop (body : Regex.cont -> Regex.cont) (lo : nat) (hi : option nat)
           (gs : list nat) (k : Regex.cont)
  : nat -> nat -> option ascii -> chars -> Regex.captures
    -> option (chars * Regex.captures) :=
  fix loop (fuel count : nat) (prev : option ascii) (s : chars)
      (c : Regex.captures) {struct fuel} : option (chars * Regex.captures) :=
    match fuel with
    | O => None
    | S fuel' =>
        if Regex.below count hi then
          let d := fun prev' s' c' =>
            if Nat.leb lo count && Nat.eqb (List.length s') (List.length s)
            then None
            else loop fuel' (S count) prev' s' c' in
          let z := body d prev s (Regex.clear gs c) in
          if Nat.ltb count lo then z else Regex.orelse z (k prev s c)
        else k prev s c
    end.


(** The sixteen spellings of [true]. *)
Definition spells_true (s : chars) : Prop :=
  exists t r u e,
    s = [t; r; u; e]
    /\ (t = "t"%char \/ t = "T"%char) /\ (r = "r"%char \/ r = "R"%char)
    /\ (u = "u"%char \/ u = "U"%char) /\ (e = "e"%char \/ e = "E"%char).


(* ===================================================================== *)
(** ** Properties *)
(* ===================================================================== *)

Section Library.
Import semver.

(** The model of [semver] on the examples of the package's own
    documentation. *)
Example semver_documented :
  valid (str "1.2.3") = Some (str "1.2.3")
  /\ valid (str "a.b.c") = None
  /\ satisfies (str "1.2.3") (str "1.x || >=2.5.0 || 5.0.0 - 7.2.3") = Return true
  /\ (version <$> coerce (str "v2")) = Some (str "2.0.0")
  /\ (version <$> coerce (str "42.6.7.9.3-alpha")) = Some (str "42.6.7")
  /\ validRange (str "^1.2.3") = Some (str ">=1.2.3 <2.0.0-0")
  /\ validRange (str "~1.2") = Some (str ">=1.2.0 <1.3.0-0")
  /\ validRange (str "1.2.3 - 2.3") = Some (str ">=1.2.3 <2.4.0-0")
  /\ validRange (str "1.x") = Some (str ">=1.0.0 <2.0.0-0")
  /\ validRange (str "^0.0.3") = Some (str ">=0.0.3 <0.0.4-0")
  /\ validRange (str "") = Some (str "*")
  /\ satisfies (str "1.2.3-alpha.7") (str ">1.2.3-alpha.3") = Return true
  /\ satisfies (str "3.4.5-alpha.9") (str ">1.2.3-alpha.3") = Return false.
Proof. repeat split; vm_compute; reflexivity. Qed.

End Library.

Section Strings.

Lemma chars_eqb_eq (s t : chars) : chars_eqb s t = true <-> s = t.
Proof.
  unfold chars_eqb. rewrite String.eqb_eq. split; [|congruence].
  intros H. apply (f_equal list_ascii_of_string) in H.
  now rewrite !list_ascii_of_string_of_list_ascii in H.
Qed.

Lemma chars_eqb_refl (s : chars) : chars_eqb s s = true.
Proof. now apply chars_eqb_eq. Qed.

Lemma chars_eqb_neq (s t : chars) : chars_eqb s t = false <-> s <> t.
Proof.
  rewrite <- chars_eqb_eq. destruct (chars_eqb s t); split; congruence.
Qed.

Lemma startsWith_prefix (p s : chars) :
  startsWith p s = true -> s = p ++ skipn (List.length p) s.
Proof.
  revert s. induction p as [|a p IH]; intros [|b s]; simpl; try easy.
  intros [Hab Hps]%andb_prop. apply Ascii.eqb_eq in Hab. subst b.
  f_equal. now apply IH.
Qed.

(** Splitting on a dot and joining with a dot gives the string back. *)
Lemma split_dot_cons (cur s : chars) :
  exists x xs, split_aux (str ".") cur 0 s = x :: xs.
Proof.
  revert cur. induction s as [|a s IH]; intros cur; cbn [split_aux]; [eauto|].
  destruct (startsWith _ _); eauto.
Qed.

Lemma join_split_dot_aux (cur s : chars) :
  join (str ".") (split_aux (str ".") cur 0 s) = rev cur ++ s.
Proof.
  revert cur. induction s as [|a s IH]; intros cur; cbn [split_aux].
  - simpl. now rewrite app_nil_r.
  - destruct (startsWith _ _) eqn:E.
    + cbn [startsWith list_ascii_of_string] in E.
      rewrite andb_true_r in E. apply Ascii.eqb_eq in E. subst a.
      change (List.length (str ".") - 1)%nat with 0%nat.
      destruct (split_dot_cons [] s) as (x & xs & Hx).
      specialize (IH []). rewrite Hx in *.
      change (join (str ".") (rev cur :: x :: xs))
        with (rev cur ++ str "." ++ join (str ".") (x :: xs)).
      now rewrite IH.
    + rewrite IH. simpl. now rewrite <- app_assoc.
Qed.

Lemma join_split_dot (s : chars) : join (str ".") (split (str ".") s) = s.
Proof. apply join_split_dot_aux. Qed.

(** Joining the first [n] parts and the rest separately. *)
Lemma join_firstn_skipn (sep : chars) (n : nat) (xs : list chars) :
  (0 < n < List.length xs)%nat ->
  join sep xs = join sep (firstn n xs) ++ sep ++ join sep (skipn n xs).
Proof.
  revert xs. induction n as [|n IH]; intros xs [H0 Hn]; [lia|].
  destruct xs as [|x [|y ys]]; simpl in Hn; try lia.
  destruct n as [|n].
  - reflexivity.
  - change (firstn (S (S n)) (x :: y :: ys)) with (x :: firstn (S n) (y :: ys)).
    change (skipn (S (S n)) (x :: y :: ys)) with (skipn (S n) (y :: ys)).
    change (join sep (x :: y :: ys)) with (x ++ sep ++ join sep (y :: ys)).
    rewrite (IH (y :: ys)) by (simpl; lia).
    destruct (firstn (S n) (y :: ys)) as [|z zs] eqn:E; [discriminate|].
    change (join sep (x :: z :: zs)) with (x ++ sep ++ join sep (z :: zs)).
    now rewrite <- !app_assoc.
Qed.

End Strings.

Section Archives.

(** C7. [extractJdkFile] dispatches on the archive format: [tar] and
    [tar.gz] go to the tar extractor, [zip] to the zip extractor and
    every other format to the 7z extractor.  The format is the extension
    argument when one is supplied (a non-empty string), and is otherwise
    read off the file name: [tar.gz] when the path ends in [.tar.gz],
    else the extension of the path without its leading dot. *)
Theorem extractJdkFile_dispatch (toolPath : chars) (extension : option chars) :
  let format := util.format_of toolPath extension in
  (format = str "tar" \/ format = str "tar.gz" ->
   util.extractJdkFile toolPath extension = util.extractTar toolPath)
  /\ (format = str "zip" ->
      util.extractJdkFile toolPath extension = util.extractZip toolPath)
  /\ (format <> str "tar" -> format <> str "tar.gz" -> format <> str "zip" ->
      util.extractJdkFile toolPath extension = util.extract7z toolPath)
  /\ (forall e, extension = Some e -> e <> [] -> format = e)
  /\ (extension = None \/ extension = Some [] ->
      format = if endsWith (str ".tar.gz") toolPath then str "tar.gz"
               else skipn 1 (path.extname toolPath)).
Proof.
  intros format. unfold util.extractJdkFile. fold format.
  repeat split.
  - intros [-> | ->]; reflexivity.
  - intros ->. reflexivity.
  - intros H1 H2 H3.
    apply chars_eqb_neq in H1, H2, H3. now rewrite H1, H2, H3.
  - intros e -> He. subst format. unfold util.format_of.
    destruct e; [congruence | reflexivity].
  - intros [-> | ->]; reflexivity.
Qed.

Lemma extractJdkFile_dispatch_witness :
  util.extractJdkFile (str "graalvm-jdk-17_linux-x64_bin.tar.gz") None
  = util.extractTar (str "graalvm-jdk-17_linux-x64_bin.tar.gz").
Proof.
  apply (extractJdkFile_dispatch (str "graalvm-jdk-17_linux-x64_bin.tar.gz") None).
  right. vm_compute. reflexivity.
Defined.

(** C8. [getDownloadArchiveExtension] is [zip] exactly on [win32] and
    [tar.gz] on every other platform. *)
Theorem getDownloadArchiveExtension_platform (platform : string) :
  (util.getDownloadArchiveExtension platform = "zip"%string <-> platform = "win32"%string)
  /\ (util.getDownloadArchiveExtension platform = "tar.gz"%string
      <-> platform <> "win32"%string).
Proof.
  unfold util.getDownloadArchiveExtension.
  destruct (String.eqb_spec platform "win32") as [-> | Hne]; split; split;
    try easy.
Qed.

End Archives.

Section Headers.

(** C9. The headers of [getGitHubHttpHeaders] always hold [accept] with
    the raw media type; [authorization] is [token <t>] exactly when the
    token [<t>] is non-empty and is absent otherwise; there is no other
    header. *)
Theorem getGitHubHttpHeaders_content (token : string) :
  let headers := util.getGitHubHttpHeaders token in
  headers !! "accept"%string = Some "application/vnd.github.VERSION.raw"%string
  /\ (headers !! "authorization"%string = Some ("token " +:+ token)%string
      <-> token <> ""%string)
  /\ (token = ""%string -> headers !! "authorization"%string = None)
  /\ (forall name : string, is_Some (headers !! name) ->
        name = "accept"%string \/ name = "authorization"%string).
Proof.
  intros headers. subst headers. unfold util.getGitHubHttpHeaders.
  destruct (String.eqb_spec token "") as [-> | Hne].
  - split; [|split; [|split]].
    + apply lookup_singleton_eq.
    + split; [|congruence]. rewrite lookup_singleton_ne by congruence.
      discriminate.
    + intros _. apply lookup_singleton_ne. congruence.
    + intros name [v Hv].
      destruct (decide (name = "accept"%string)) as [-> | Hn]; [now left|].
      rewrite lookup_singleton_ne in Hv by congruence. discriminate.
  - split; [|split; [|split]].
    + rewrite lookup_insert_ne by congruence. apply lookup_singleton_eq.
    + split; [intros _; exact Hne | intros _; apply lookup_insert_eq].
    + intros ->. congruence.
    + intros name [v Hv].
      destruct (decide (name = "authorization"%string)) as [-> | Hn1]; [now right|].
      destruct (decide (name = "accept"%string)) as [-> | Hn2]; [now left|].
      rewrite lookup_insert_ne in Hv by congruence.
      rewrite lookup_singleton_ne in Hv by congruence. discriminate.
Qed.

Lemma getGitHubHttpHeaders_content_witness :
  util.getGitHubHttpHeaders "" !! "authorization"%string = None.
Proof.
  apply (getGitHubHttpHeaders_content ""). reflexivity.
Defined.

End Headers.

Section Conversion.

(** C10. [convertVersionToSemver] joins the first three components with
    a dot; with more than three, the others follow one [+], joined with a
    dot, so that the third dot of a dotted string becomes the [+]; with
    three or fewer the result is the components joined with a dot, a
    dotted string being returned as it is, with nothing padded. *)
Theorem convertVersionToSemver_components :
  (forall version : list N + chars,
      let parts := util.versionArray version in
      ((List.length parts <= 3)%nat ->
       util.convertVersionToSemver version = join (str ".") parts)
      /\ ((3 < List.length parts)%nat ->
          util.convertVersionToSemver version
          = join (str ".") (firstn 3 parts) ++ str "+"
            ++ join (str ".") (skipn 3 parts)
          /\ join (str ".") parts
             = join (str ".") (firstn 3 parts) ++ str "."
               ++ join (str ".") (skipn 3 parts)))
  /\ (forall s : chars,
        (List.length (split (str ".") s) <= 3)%nat ->
        util.convertVersionToSemver (inr s) = s)
  /\ util.convertVersionToSemver (inr (str "12.10.2.1.1")) = str "12.10.2+1.1"
  /\ util.convertVersionToSemver (inl [12; 10; 2; 1; 1]) = str "12.10.2+1.1"
  /\ util.convertVersionToSemver (inr (str "12.10.2.1")) = str "12.10.2+1"
  /\ util.convertVersionToSemver (inr (str "12.10")) = str "12.10"
  /\ util.convertVersionToSemver (inl [17]) = str "17".
Proof.
  assert (Hgen : forall version : list N + chars,
             (List.length (util.versionArray version) <= 3)%nat ->
             util.convertVersionToSemver version
             = join (str ".") (util.versionArray version)).
  { intros version Hlen. unfold util.convertVersionToSemver.
    destruct (Nat.ltb_spec 3 (List.length (util.versionArray version))); [lia|].
    now rewrite firstn_all2. }
  split; [|split; [|repeat split]].
  - intros version parts. subst parts. split; [apply Hgen|].
    intros Hlen. split.
    + unfold util.convertVersionToSemver.
      now destruct (Nat.ltb_spec 3 (List.length (util.versionArray version))); [|lia].
    + apply join_firstn_skipn. lia.
  - intros s Hlen. rewrite Hgen by exact Hlen. apply join_split_dot.
Qed.

Lemma convertVersionToSemver_components_witness :
  util.convertVersionToSemver (inr (str "21.0.1")) = str "21.0.1".
Proof.
  apply (proj1 (proj2 convertVersionToSemver_components) (str "21.0.1")).
  vm_compute. lia.
Defined.

End Conversion.

Section VersionFiles.

Variable majors : list chars.

Lemma fileContent_plain (content versionFile : chars) :
  path.basename versionFile <> str ".tool-versions" ->
  util.fileContent content versionFile = plain_token content.
Proof.
  intros H%chars_eqb_neq. unfold util.fileContent. now rewrite H.
Qed.

Lemma fileContent_tool_versions (content versionFile : chars) :
  path.basename versionFile = str ".tool-versions" ->
  util.fileContent content versionFile = tool_versions_token content.
Proof.
  intros H%chars_eqb_eq. unfold util.fileContent. now rewrite H.
Qed.

Lemma only_major_In (d : chars) : util.only_major majors d = true <-> In d majors.
Proof.
  unfold util.only_major. rewrite existsb_exists. split.
  - intros (x & Hx & ->%chars_eqb_eq). exact Hx.
  - intros H. exists d. split; [exact H | apply chars_eqb_refl].
Qed.

Lemma only_major_not_In (d : chars) :
  util.only_major majors d = false <-> ~ In d majors.
Proof.
  rewrite <- only_major_In. destruct (util.only_major majors d); split; congruence.
Qed.

(** [getVersionFromFileContent] once the token is known. *)
Lemma getVersionFromFileContent_token (content d f : chars) :
  util.getVersionFromFileContent majors content d f
  = match util.fileContent content f with
    | [] => Return None
    | _ :: _ =>
        match util.resolve (util.fileContent content f) with
        | None | Some (inl []) => Return None
        | Some v => util.finish majors d v
        end
    end.
Proof.
  unfold util.getVersionFromFileContent.
  destruct (util.fileContent content f) as [|a token]; [reflexivity|].
  cbn [falsy].
  destruct (util.resolve (a :: token)) as [[[|b s]|sv]|]; reflexivity.
Qed.

End VersionFiles.

Section Comparison.
Import semver.

Lemma strict_equal_eq (a b : identifier) : strict_equal a b = true <-> a = b.
Proof.
  destruct a as [n|s], b as [m|t]; simpl;
    rewrite ?N.eqb_eq, ?chars_eqb_eq; split; congruence.
Qed.

Lemma strict_equal_neq (a b : identifier) : strict_equal a b = false <-> a <> b.
Proof.
  rewrite <- strict_equal_eq. destruct (strict_equal a b); split; congruence.
Qed.

Lemma or_else_zero (x y : Z) : or_else x y = 0%Z <-> x = 0%Z /\ y = 0%Z.
Proof.
  unfold or_else. destruct (Z.eqb_spec x 0); split; intros; try tauto; lia.
Qed.

Lemma compareIdentifiers_Num (n m : N) :
  compareIdentifiers (Num n) (Num m) = 0%Z <-> n = m.
Proof.
  unfold compareIdentifiers. simpl.
  destruct (N.eqb_spec n m); [tauto|].
  destruct (n <? m); split; intros; congruence.
Qed.

Lemma compareIdentifiers_zero (a b : identifier) :
  a <> b ->
  compareIdentifiers a b = 0%Z
  <-> numeric a = true /\ numeric b = true /\ numeric_value a = numeric_value b.
Proof.
  intros Hne%strict_equal_neq. unfold compareIdentifiers. rewrite Hne.
  destruct (numeric a), (numeric b); simpl.
  - destruct (N.eqb_spec (numeric_value a) (numeric_value b)); [tauto|].
    destruct (_ <? _); split; intros; try congruence; tauto.
  - split; [discriminate | intros (_ & ? & _); discriminate].
  - split; [discriminate | intros (? & _); discriminate].
  - split; [|intros (? & _); discriminate].
    destruct a, b; try discriminate. destruct (chars_ltb _ _); discriminate.
Qed.

Lemma compareList_zero (xs ys : list identifier) :
  compareList xs ys = 0%Z <-> identifiers_match xs ys.
Proof.
  revert ys. induction xs as [|a xs IH]; intros [|b ys]; simpl.
  - split; [constructor | reflexivity].
  - split; [discriminate | inversion 1].
  - split; [discriminate | inversion 1].
  - destruct (strict_equal a b) eqn:E.
    + apply strict_equal_eq in E. subst b. rewrite IH. split.
      * now constructor.
      * inversion 1; subst; [assumption | congruence].
    + apply strict_equal_neq in E. rewrite (compareIdentifiers_zero a b E). split.
      * intros (Ha & Hb & Hv). now apply match_number.
      * inversion 1; subst; [congruence | tauto].
Qed.

Lemma comparePre_zero (a b : SemVer) :
  comparePre a b = 0%Z <-> identifiers_match (prerelease a) (prerelease b).
Proof.
  unfold comparePre.
  destruct (prerelease a) as [|x xs] eqn:Ea, (prerelease b) as [|y ys] eqn:Eb.
  - split; [constructor | reflexivity].
  - split; [discriminate | inversion 1].
  - split; [discriminate | inversion 1].
  - apply compareList_zero.
Qed.

Lemma compare_zero (a b : SemVer) :
  compare a b = 0%Z
  <-> version b = version a
      \/ (major a = major b /\ minor a = minor b /\ patch a = patch b
          /\ identifiers_match (prerelease a) (prerelease b)).
Proof.
  unfold compare. destruct (chars_eqb (version b) (version a)) eqn:E.
  - apply chars_eqb_eq in E. tauto.
  - apply chars_eqb_neq in E. unfold compareMain.
    rewrite !or_else_zero, !compareIdentifiers_Num, comparePre_zero. tauto.
Qed.

Lemma parse_Some (s : chars) (v : SemVer) : parse s = Some v <-> new_SemVer s = Return v.
Proof.
  unfold parse, try_or_null. destruct (new_SemVer s); split; congruence.
Qed.

Lemma parse_None (s : chars) : parse s = None <-> exists e, new_SemVer s = Throw e.
Proof.
  unfold parse, try_or_null. destruct (new_SemVer s) as [v|e]; split;
    try congruence; eauto.
  intros [e' He]. discriminate.
Qed.

(** [compareBuild(r, v) === 0] for a range that parses. *)
Lemma compareBuild_zero (r v : chars) (sr : SemVer) :
  parse r = Some sr ->
  (let* c := compareBuild r v in Return (c =? 0)%Z) = Return true
  <-> exists sv, parse v = Some sv /\ same_build_version sr sv.
Proof.
  intros Hr%parse_Some. unfold compareBuild. rewrite Hr. simpl.
  destruct (new_SemVer v) as [sv|e] eqn:Hv; simpl.
  - assert (Hz : (or_else (compare sr sv) (SemVer_compareBuild sr sv) =? 0)%Z = true
                 <-> same_build_version sr sv).
    { rewrite Z.eqb_eq, or_else_zero, compare_zero.
      unfold SemVer_compareBuild. rewrite compareList_zero. reflexivity. }
    split.
    + intros H. exists sv. split; [now apply parse_Some|].
      apply Hz. congruence.
    + intros (sv' & Hsv'%parse_Some & Hsame).
      assert (sv' = sv) by congruence. subst sv'.
      apply Hz in Hsame. now rewrite Hsame.
  - split; [discriminate|].
    intros (sv & Hsv%parse_Some & _). congruence.
Qed.

End Comparison.

Section RangeMatcher.
Import semver.

(** C1, as stated, fails: [v1.2.3+4] is not the string [1.2.3+4], and
    [1.2.3+04] has other build metadata, yet both satisfy the range
    [1.2.3+4], which is an exact version with build metadata. *)
Lemma isVersionSatisfies_build_not_text_equality :
  valid (str "1.2.3+4") = Some (str "1.2.3")
  /\ (build <$> parse (str "1.2.3+4")) = Some [str "4"]
  /\ util.isVersionSatisfies (str "1.2.3+4") (str "v1.2.3+4") = Return true
  /\ str "v1.2.3+4" <> str "1.2.3+4"
  /\ util.isVersionSatisfies (str "1.2.3+4") (str "1.2.3+04") = Return true
  /\ str "1.2.3+04" <> str "1.2.3+4".
Proof.
  repeat split; try (vm_compute; reflexivity); discriminate.
Qed.

(** C1, amended.  For a range [r] that is a valid exact version with
    build metadata, [isVersionSatisfies r v] returns [true] exactly when
    [v] is a valid version that [compareBuild] ranks equal to [r]: equal
    to it without the build metadata, and with matching build
    identifiers.  That is so whenever [v] parses to the components of
    [r], a leading [v] or surrounding white space notwithstanding.  When
    [v] is a valid version the call returns, and when it is not the call
    throws.  [1.2.3+4] is satisfied by [1.2.3+4] and neither by
    [1.2.3+5] nor by [1.2.3]. *)
Theorem isVersionSatisfies_build :
  (forall (r v : chars) (sr : SemVer),
      parse r = Some sr -> build sr <> [] ->
      (util.isVersionSatisfies r v = Return true
       <-> exists sv, parse v = Some sv /\ same_build_version sr sv)
      /\ (parse v = Some sr -> util.isVersionSatisfies r v = Return true)
      /\ (forall sv, parse v = Some sv ->
                     exists b, util.isVersionSatisfies r v = Return b)
      /\ (parse v = None -> exists e, util.isVersionSatisfies r v = Throw e))
  /\ util.isVersionSatisfies (str "1.2.3+4") (str "1.2.3+4") = Return true
  /\ util.isVersionSatisfies (str "1.2.3+4") (str "1.2.3+5") = Return false
  /\ util.isVersionSatisfies (str "1.2.3+4") (str "1.2.3") = Return false.
Proof.
  split; [|repeat split; vm_compute; reflexivity].
  intros r v sr Hr Hb.
  assert (Hdef : util.isVersionSatisfies r v
                 = (let* c := compareBuild r v in Return (c =? 0)%Z)).
  { unfold util.isVersionSatisfies, valid. rewrite Hr. simpl.
    destruct (build sr); [congruence | reflexivity]. }
  rewrite Hdef.
  assert (Hiff := compareBuild_zero r v sr Hr).
  split; [exact Hiff | split; [|split]].
  - intros Hv. apply Hiff. exists sr. split; [exact Hv|].
    assert (Hrefl : forall xs, identifiers_match xs xs)
      by (induction xs; constructor; assumption).
    split; [now left | apply Hrefl].
  - intros sv Hsv%parse_Some. apply parse_Some in Hr.
    unfold compareBuild. rewrite Hr, Hsv. simpl. eauto.
  - intros (e & He)%parse_None. apply parse_Some in Hr.
    unfold compareBuild. rewrite Hr, He. simpl. eauto.
Qed.

Lemma isVersionSatisfies_build_witness :
  util.isVersionSatisfies (str "21.0.1+12") (str "v21.0.1+12") = Return true.
Proof.
  refine (proj1 (proj2 (proj1 isVersionSatisfies_build
                          (str "21.0.1+12") (str "v21.0.1+12")
                          {| major := 21; minor := 0; patch := 1;
                             prerelease := []; build := [str "12"] |}
                          _ _)) _).
  - vm_compute. reflexivity.
  - discriminate.
  - vm_compute. reflexivity.
Defined.

(** C2. For a range that is not a valid exact version with build
    metadata, [isVersionSatisfies] returns what [semver.satisfies]
    returns for the version and the range; [1.5.0] satisfies [^1.2.0],
    [2.0.0] does not, and the build metadata of the version plays no
    part. *)
Theorem isVersionSatisfies_range :
  (forall r v : chars,
      (forall sr, parse r = Some sr -> build sr = []) ->
      util.isVersionSatisfies r v = satisfies v r)
  /\ util.isVersionSatisfies (str "^1.2.0") (str "1.5.0") = Return true
  /\ util.isVersionSatisfies (str "^1.2.0") (str "2.0.0") = Return false
  /\ util.isVersionSatisfies (str "^1.2.0") (str "1.5.0+7") = Return true
  /\ util.isVersionSatisfies (str "1.2.3") (str "1.2.3+5") = Return true.
Proof.
  split; [|repeat split; vm_compute; reflexivity].
  intros r v Hr. unfold util.isVersionSatisfies, valid.
  destruct (parse r) as [sr|]; [|reflexivity]. simpl.
  now rewrite (Hr sr eq_refl).
Qed.

Lemma isVersionSatisfies_range_witness :
  util.isVersionSatisfies (str "17.x") (str "17.0.9")
  = satisfies (str "17.0.9") (str "17.x").
Proof.
  apply (proj1 isVersionSatisfies_range (str "17.x") (str "17.0.9")).
  intros sr Hsr. vm_compute in Hsr. discriminate.
Defined.

End RangeMatcher.

Section VersionSpecParser.
Import semver.

Variable majors : list chars.

(** C3. [avoidOldNotation] drops the two characters of a leading [1.]
    and leaves every other string as it is; so the content [1.8] of a
    version file gives [8] for every distribution, as does the line
    [java 1.8] of a [.tool-versions] file. *)
Theorem avoidOldNotation_legacy :
  (forall s, util.avoidOldNotation (str "1." ++ s) = s)
  /\ (forall s, startsWith (str "1.") s = true ->
                util.avoidOldNotation s = skipn 2 s /\ s = str "1." ++ skipn 2 s)
  /\ (forall s, startsWith (str "1.") s = false -> util.avoidOldNotation s = s)
  /\ (forall d f, path.basename f <> str ".tool-versions" ->
        util.getVersionFromFileContent majors (str "1.8") d f
        = Return (Some (str "8")))
  /\ (forall d f, path.basename f = str ".tool-versions" ->
        util.getVersionFromFileContent majors (str "java 1.8") d f
        = Return (Some (str "8"))).
Proof.
  split; [|split; [|split; [|split]]].
  - intros s. reflexivity.
  - intros s H. unfold util.avoidOldNotation. rewrite H.
    split; [reflexivity | exact (startsWith_prefix _ _ H)].
  - intros s H. unfold util.avoidOldNotation. now rewrite H.
  - intros d f Hf. rewrite getVersionFromFileContent_token.
    rewrite (fileContent_plain _ _ Hf).
    change (plain_token (str "1.8")) with (str "1.8").
    replace (util.resolve (str "1.8")) with (Some (inl (str "8")) : util.version_value)
      by (vm_compute; reflexivity).
    unfold util.finish. destruct (util.only_major majors d); vm_compute; reflexivity.
  - intros d f Hf. rewrite getVersionFromFileContent_token.
    rewrite (fileContent_tool_versions _ _ Hf).
    replace (tool_versions_token (str "java 1.8")) with (str "1.8")
      by (vm_compute; reflexivity).
    replace (util.resolve (str "1.8")) with (Some (inl (str "8")) : util.version_value)
      by (vm_compute; reflexivity).
    unfold util.finish. destruct (util.only_major majors d); vm_compute; reflexivity.
Qed.

(** C4. For a distribution of the major-only set the resolved version
    is reduced to the major of its coercion, rendered in decimal; for
    any other distribution the resolved version is returned in full.
    The content [11.0.2] gives [11] in the first case and [11.0.2] in
    the second. *)
Theorem getVersionFromFileContent_major_only :
  (forall content d f a token v,
      util.fileContent content f = a :: token ->
      util.resolve (a :: token) = Some v ->
      util.is_falsy (Some v) = false ->
      (In d majors ->
       forall sv, util.coerce_value v = Some sv ->
                  util.getVersionFromFileContent majors content d f
                  = Return (Some (of_N (major sv))))
      /\ (~ In d majors ->
          util.getVersionFromFileContent majors content d f
          = Return (Some (util.toString v))))
  /\ (forall d f,
        path.basename f <> str ".tool-versions" ->
        (In d majors ->
         util.getVersionFromFileContent majors (str "11.0.2") d f
         = Return (Some (str "11")))
        /\ (~ In d majors ->
            util.getVersionFromFileContent majors (str "11.0.2") d f
            = Return (Some (str "11.0.2")))).
Proof.
  assert (Hgen : forall content d f a token v,
      util.fileContent content f = a :: token ->
      util.resolve (a :: token) = Some v ->
      util.is_falsy (Some v) = false ->
      util.getVersionFromFileContent majors content d f = util.finish majors d v).
  { intros content d f a token v Htok Hres Hv.
    rewrite getVersionFromFileContent_token, Htok, Hres.
    destruct v as [[|b s]|sv]; [discriminate | reflexivity | reflexivity]. }
  split.
  - intros content d f a token v Htok Hres Hv.
    rewrite (Hgen _ d _ _ _ _ Htok Hres Hv). unfold util.finish. split.
    + intros Hd%only_major_In sv Hsv. now rewrite Hd, Hsv.
    + intros Hd%only_major_not_In. now rewrite Hd.
  - intros d f Hf.
    assert (Hfin : util.getVersionFromFileContent majors (str "11.0.2") d f
                   = util.finish majors d (inl (str "11.0.2"))).
    { rewrite getVersionFromFileContent_token, (fileContent_plain _ _ Hf).
      replace (plain_token (str "11.0.2")) with (str "11.0.2")
        by (vm_compute; reflexivity).
      replace (util.resolve (str "11.0.2"))
        with (Some (inl (str "11.0.2")) : util.version_value)
        by (vm_compute; reflexivity).
      reflexivity. }
    rewrite Hfin. unfold util.finish. split.
    + intros Hd%only_major_In. rewrite Hd. vm_compute. reflexivity.
    + intros Hd%only_major_not_In. rewrite Hd. reflexivity.
Qed.

End VersionSpecParser.

Lemma avoidOldNotation_legacy_witness :
  util.getVersionFromFileContent [str "corretto"] (str "1.8") (str "corretto")
    (str ".java-version")
  = Return (Some (str "8")).
Proof.
  apply (proj1 (proj2 (proj2 (proj2 (avoidOldNotation_legacy [str "corretto"]))))).
  vm_compute. discriminate.
Defined.

Lemma getVersionFromFileContent_major_only_witness :
  util.getVersionFromFileContent [str "corretto"] (str "21.0.3+9") (str "corretto")
    (str ".java-version")
  = Return (Some (of_N 21)).
Proof.
  refine (proj1 (proj1 (getVersionFromFileContent_major_only [str "corretto"])
                   (str "21.0.3+9") (str "corretto") (str ".java-version")
                   "2"%char (str "1.0.3+9") (inl (str "21.0.3+9")) _ _ _)
            _
            {| semver.major := 21; semver.minor := 0; semver.patch := 3;
               semver.prerelease := []; semver.build := [] |} _).
  - vm_compute. reflexivity.
  - vm_compute. reflexivity.
  - reflexivity.
  - left. reflexivity.
  - vm_compute. reflexivity.
Defined.

Section Resolution.
Import semver.

Variable majors : list chars.

Lemma resolve_cases (token : chars) :
  util.resolve token
  = match validRange (rawVersion token) with
    | Some _ => Some (inl (tentativeVersion token))
    | None => inr <$> coerce (tentativeVersion token)
    end.
Proof. reflexivity. Qed.

Lemma hd_split_dash (cur s : chars) :
  hd [] (split_aux (str "-") cur 0 s) = rev cur ++ upto_dash s.
Proof.
  revert cur. induction s as [|a s IH]; intros cur;
    cbn [split_aux upto_dash startsWith list_ascii_of_string].
  - now rewrite app_nil_r.
  - unfold is_char. rewrite andb_true_r.
    destruct (Ascii.eqb "-" a); simpl.
    + now rewrite app_nil_r.
    + rewrite IH. simpl. now rewrite <- app_assoc.
Qed.

Lemma rawVersion_upto_dash (token : chars) :
  rawVersion token = upto_dash (tentativeVersion token).
Proof. apply hd_split_dash. Qed.

Lemma validRange_empty : validRange [] = Some (str "*").
Proof. vm_compute. reflexivity. Qed.

(** C5, as stated, fails: from the content [1.] the token [1.] is
    extracted, it can be coerced, and what is validated, the empty
    string, is a valid range; the result is [null] all the same. *)
Lemma getVersionFromFileContent_null_for_valid_range :
  util.fileContent (str "1.") (str ".java-version") = str "1."
  /\ validRange (rawVersion (str "1.")) = Some (str "*")
  /\ (version <$> coerce (str "1.")) = Some (str "1.0.0")
  /\ util.getVersionFromFileContent [str "corretto"] (str "1.") (str "temurin")
       (str ".java-version") = Return None.
Proof. repeat split; vm_compute; reflexivity. Qed.

(** C5, amended.  [getVersionFromFileContent] returns [null] when no
    token is found, when the token is neither validated as a range nor
    coerced, and when nothing is left of the token once the legacy
    prefix is removed.  For every other input it returns a string,
    given that for a distribution of the major-only set the token can
    be coerced. *)
Theorem getVersionFromFileContent_null (content d f : chars) :
  let token := util.fileContent content f in
  let result := util.getVersionFromFileContent majors content d f in
  (token = [] -> result = Return None)
  /\ (validRange (rawVersion token) = None ->
      coerce (tentativeVersion token) = None -> result = Return None)
  /\ (tentativeVersion token = [] -> result = Return None)
  /\ (token <> [] -> tentativeVersion token <> [] ->
      validRange (rawVersion token) <> None
      \/ coerce (tentativeVersion token) <> None ->
      (In d majors -> coerce (tentativeVersion token) <> None) ->
      exists s, result = Return (Some s)).
Proof.
  intros token result. subst result.
  rewrite getVersionFromFileContent_token. fold token.
  rewrite resolve_cases.
  split; [|split; [|split]].
  - intros ->. reflexivity.
  - intros -> ->. now destruct token.
  - intros Ht. unfold rawVersion. rewrite Ht.
    change (hd [] (split (str "-") [])) with (@nil ascii).
    rewrite validRange_empty. now destruct token.
  - intros Htok Ht Hsome Hmajor.
    destruct token as [|a token']; [congruence|].
    set (t := tentativeVersion (a :: token')) in *.
    destruct (validRange (rawVersion (a :: token'))) as [range|].
    + destruct t as [|b t'] eqn:Et; [congruence|].
      unfold util.finish. destruct (util.only_major majors d) eqn:Hd.
      * apply only_major_In in Hd.
        destruct (coerce (b :: t')) as [sv|] eqn:Hc; [|now apply Hmajor in Hd].
        simpl. rewrite Hc. simpl. eauto.
      * eauto.
    + destruct (coerce t) as [sv|]; [|destruct Hsome; congruence].
      simpl. unfold util.finish.
      destruct (util.only_major majors d); simpl; eauto.
Qed.

(** C6, as stated, fails: for [corretto], a distribution of the
    major-only set, the content [11.0.2] is a valid range and [11] is
    returned; and for the content [1.] the empty string is validated and
    [null] is returned. *)
Lemma getVersionFromFileContent_not_verbatim :
  util.fileContent (str "11.0.2") (str ".java-version") = str "11.0.2"
  /\ validRange (rawVersion (str "11.0.2")) = Some (str "11.0.2")
  /\ util.getVersionFromFileContent [str "corretto"] (str "11.0.2")
       (str "corretto") (str ".java-version") = Return (Some (str "11"))
  /\ str "11" <> str "11.0.2"
  /\ validRange (rawVersion (str "1.")) = Some (str "*")
  /\ util.getVersionFromFileContent [] (str "1.") (str "zulu")
       (str ".java-version") = Return None.
Proof. repeat split; try (vm_compute; reflexivity); discriminate. Qed.

(** C6, amended.  What is validated as a range is the token, without
    the legacy prefix, up to its first dash.  For a distribution outside
    the major-only set: when that is a valid range, the token with its
    suffix is returned as it is, if it is not empty; otherwise the
    coercion of the token with its suffix is returned, [null] when there
    is none.  So [17-ea] is returned as it is, [8u302] gives [8.0.0] and
    [17.0.1.2] gives [17.0.1]. *)
Theorem getVersionFromFileContent_resolved :
  (forall content d f,
      let token := util.fileContent content f in
      let result := util.getVersionFromFileContent majors content d f in
      token <> [] -> ~ In d majors ->
      rawVersion token = upto_dash (tentativeVersion token)
      /\ (validRange (rawVersion token) <> None ->
          tentativeVersion token <> [] ->
          result = Return (Some (tentativeVersion token)))
      /\ (validRange (rawVersion token) = None ->
          result = Return (version <$> coerce (tentativeVersion token))))
  /\ (forall d f,
        path.basename f <> str ".tool-versions" -> ~ In d majors ->
        util.getVersionFromFileContent majors (str "17-ea") d f
        = Return (Some (str "17-ea"))
        /\ util.getVersionFromFileContent majors (str "8u302") d f
           = Return (Some (str "8.0.0"))
        /\ util.getVersionFromFileContent majors (str "17.0.1.2") d f
           = Return (Some (str "17.0.1"))).
Proof.
  assert (Hgen : forall content d f,
      let token := util.fileContent content f in
      let result := util.getVersionFromFileContent majors content d f in
      token <> [] -> ~ In d majors ->
      (validRange (rawVersion token) <> None ->
       tentativeVersion token <> [] ->
       result = Return (Some (tentativeVersion token)))
      /\ (validRange (rawVersion token) = None ->
          result = Return (version <$> coerce (tentativeVersion token)))).
  { intros content d f token result Htok Hd%only_major_not_In. subst result.
    rewrite getVersionFromFileContent_token. fold token.
    rewrite resolve_cases.
    destruct token as [|a token']; [congruence|].
    set (t := tentativeVersion (a :: token')) in *.
    destruct (validRange (rawVersion (a :: token'))) as [range|]; split;
      try congruence.
    - intros _ Ht. destruct t as [|b t']; [congruence|].
      unfold util.finish. now rewrite Hd.
    - intros _. destruct (coerce t) as [sv|]; [|reflexivity].
      simpl. unfold util.finish. now rewrite Hd. }
  split.
  - intros content d f token result Htok Hd. split.
    + apply rawVersion_upto_dash.
    + exact (Hgen content d f Htok Hd).
  - intros d f Hf Hd.
    pose proof (Hgen (str "17-ea") d f) as H1.
    pose proof (Hgen (str "8u302") d f) as H2.
    pose proof (Hgen (str "17.0.1.2") d f) as H3.
    cbv zeta in H1, H2, H3.
    rewrite (fileContent_plain (str "17-ea") _ Hf) in H1.
    rewrite (fileContent_plain (str "8u302") _ Hf) in H2.
    rewrite (fileContent_plain (str "17.0.1.2") _ Hf) in H3.
    split; [|split].
    + apply H1; try assumption; vm_compute; discriminate.
    + rewrite (proj2 (H2 ltac:(vm_compute; discriminate) Hd))
        by (vm_compute; reflexivity).
      vm_compute. reflexivity.
    + rewrite (proj2 (H3 ltac:(vm_compute; discriminate) Hd))
        by (vm_compute; reflexivity).
      vm_compute. reflexivity.
Qed.

(** The case that C5 and C6 leave aside: for a distribution of the
    major-only set, a token that is a valid range and cannot be coerced
    makes the call throw. *)
Remark getVersionFromFileContent_throws :
  util.getVersionFromFileContent [str "corretto"] (str "1.x") (str "corretto")
    (str ".java-version")
  = Throw (TypeError (str "Invalid Version: x")).
Proof. vm_compute. reflexivity. Qed.

End Resolution.

Lemma getVersionFromFileContent_null_witness :
  exists s,
    util.getVersionFromFileContent [str "corretto"] (str "21.0.3") (str "corretto")
      (str ".java-version")
    = Return (Some s).
Proof.
  apply (getVersionFromFileContent_null [str "corretto"] (str "21.0.3")
           (str "corretto") (str ".java-version")).
  - vm_compute. discriminate.
  - vm_compute. discriminate.
  - left. vm_compute. discriminate.
  - intros _. vm_compute. discriminate.
Defined.

Lemma getVersionFromFileContent_resolved_witness :
  util.getVersionFromFileContent [str "corretto"] (str "17.0.9-ea") (str "temurin")
    (str ".java-version")
  = Return (Some (str "17.0.9-ea")).
Proof.
  apply (proj1 (getVersionFromFileContent_resolved [str "corretto"])
           (str "17.0.9-ea") (str "temurin") (str ".java-version")).
  - vm_compute. discriminate.
  - vm_compute. intros [H | []]. discriminate.
  - vm_compute. discriminate.
  - vm_compute. discriminate.
Defined.

Section Engine.
Import Regex.

Lemma capture_clear (gs : list nat) (c : captures) (i : nat) :
  ~ In i gs -> capture (clear gs c) i = capture c i.
Proof.
  intros Hi. induction c as [|[j v] c IH]; [reflexivity|].
  unfold clear in *. cbn [List.filter capture].
  destruct (existsb (Nat.eqb j) gs) eqn:E; cbn [negb capture].
  - apply existsb_exists in E as (x & Hx & Hjx). apply Nat.eqb_eq in Hjx. subst x.
    destruct (Nat.eqb_spec i j); [subst; contradiction | exact IH].
  - now rewrite IH.
Qed.

Lemma frame_refl (gs : list nat) (c : captures) : frame gs c c.
Proof. intros i _. reflexivity. Qed.

Lemma frame_trans (gs gs' : list nat) (c1 c2 c3 : captures) :
  frame gs c1 c2 -> frame gs' c2 c3 -> frame (gs ++ gs') c1 c3.
Proof.
  intros H12 H23 i Hi. rewrite in_app_iff in Hi.
  rewrite H23, H12; tauto.
Qed.

Lemma frame_weaken (gs gs' : list nat) (c c' : captures) :
  incl gs gs' -> frame gs c c' -> frame gs' c c'.
Proof. intros Hincl H i Hi. apply H. intros Hin. apply Hi, Hincl, Hin. Qed.

Lemma frame_clear (gs : list nat) (c : captures) : frame gs c (clear gs c).
Proof. intros i Hi. now apply capture_clear. Qed.

Lemma orelse_Some {A} (x y : option A) (a : A) :
  orelse x y = Some a -> x = Some a \/ y = Some a.
Proof. destruct x; simpl; intros H; [left | right]; congruence. Qed.

Lemma firstn_consumed (w s' : chars) :
  firstn (List.length (w ++ s') - List.length s') (w ++ s') = w.
Proof.
  rewrite length_app, Nat.add_sub. rewrite firstn_app, Nat.sub_diag.
  rewrite firstn_all. simpl. apply app_nil_r.
Qed.

Lemma run_rep (ml : bool) (lo : nat) (hi : option nat) (r : regex) (k : cont)
      (prev : option ascii) (s : chars) (c : captures) :
  run ml (Rep lo hi r) k prev s c
  = rep_loop (run ml r) lo hi (groups r) k (lo + List.length s + 1) 0 prev s c.
Proof. reflexivity. Qed.

(** The loop of a quantifier, given what its body does. *)
Lemma rep_loop_sound (body : cont -> cont) (M : chars -> Prop)
      (lo : nat) (hi : option nat) (gs : list nat) (k : cont) :
  (forall k' prev s c res,
      body k' prev s c = Some res ->
      exists w s' prev' c',
        s = w ++ s' /\ M w /\ frame gs c c' /\ k' prev' s' c' = Some res) ->
  forall fuel count prev s c res,
    (forall h, hi = Some h -> (count <= h)%nat) ->
    rep_loop body lo hi gs k fuel count prev s c = Some res ->
    exists ws s' prev' c',
      s = concat ws ++ s' /\ Forall M ws /\ frame gs c c'
      /\ within lo hi (count + List.length ws)
      /\ k prev' s' c' = Some res.
Proof.
  intros Hbody. induction fuel as [|fuel IH]; intros count prev s c res Hcount H;
    [discriminate|].
  cbn [rep_loop] in H.
  assert (Hstop : k prev s c = Some res ->
                  (lo <= count)%nat \/ below count hi = false ->
                  exists ws s' prev' c',
                    s = concat ws ++ s' /\ Forall M ws /\ frame gs c c'
                    /\ within lo hi (count + List.length ws)
                    /\ k prev' s' c' = Some res).
  { intros Hk Hb. exists [], s, prev, c. simpl. rewrite Nat.add_0_r.
    split; [reflexivity|]. split; [apply List.Forall_nil|].
    split; [apply frame_refl|]. split; [|exact Hk].
    unfold within, below in *. destruct hi as [h|].
    - specialize (Hcount h eq_refl). destruct Hb as [Hb | Hb].
      + lia.
      + apply Nat.ltb_ge in Hb. lia.
    - destruct Hb as [Hb | Hb]; [exact Hb | discriminate]. }
  destruct (below count hi) eqn:Hbelow; [|apply Hstop; auto].
  assert (Hmore :
            body (fun prev' s' c' =>
                    if Nat.leb lo count && Nat.eqb (List.length s') (List.length s)
                    then None
                    else rep_loop body lo hi gs k fuel (S count) prev' s' c')
                 prev s (clear gs c) = Some res ->
            exists ws s' prev' c',
              s = concat ws ++ s' /\ Forall M ws /\ frame gs c c'
              /\ within lo hi (count + List.length ws)
              /\ k prev' s' c' = Some res).
  { intros Hz. apply Hbody in Hz as (w & s1 & p1 & c1 & -> & Hw & Hf & Hd).
    destruct (_ && _); [discriminate|].
    apply IH in Hd as (ws & s2 & p2 & c2 & -> & Hws & Hf2 & Hin & Hk).
    - exists (w :: ws), s2, p2, c2. simpl. rewrite <- app_assoc.
      split; [reflexivity|]. split; [now apply List.Forall_cons|].
      split; [|split; [|exact Hk]].
      + intros i Hi. rewrite (Hf2 i Hi), (Hf i Hi). now apply capture_clear.
      + now rewrite Nat.add_succ_r.
    - intros h Hh. unfold below in Hbelow. subst hi.
      apply Nat.ltb_lt in Hbelow. lia. }
  destruct (Nat.ltb_spec count lo) as [Hlt | Hge]; [now apply Hmore|].
  apply orelse_Some in H as [H | H]; [now apply Hmore | apply Hstop; auto].
Qed.

(** Soundness of the matcher: a successful run consumes a string of the
    pattern, passes what is left to the continuation, and leaves the
    captures of foreign groups alone. *)
Lemma run_sound (ml : bool) (r : regex) :
  forall (k : cont) prev s c res,
    run ml r k prev s c = Some res ->
    exists w s' prev' c',
      s = w ++ s' /\ matches r w /\ frame (groups r) c c'
      /\ k prev' s' c' = Some res.
Proof.
  assert (Hnone : forall (k : cont) prev s c res,
             k prev s c = Some res ->
             exists w s' prev' c',
               s = w ++ s' /\ w = [] /\ frame [] c c' /\ k prev' s' c' = Some res).
  { intros k prev s c res H. exists [], s, prev, c.
    split; [reflexivity|]. split; [reflexivity|]. split; [apply frame_refl | exact H]. }
  induction r as [|p|r1 IH1 r2 IH2|r1 IH1 r2 IH2|lo hi r1 IH1|i r1 IH1| | |p];
    intros k prev s c res H.
  - exact (Hnone k prev s c res H).
  - cbn [run] in H. destruct s as [|a s]; [discriminate|].
    destruct (p a) eqn:Hp; [|discriminate].
    exists [a], s, (Some a), c.
    split; [reflexivity|]. split; [exists a; auto|]. split; [apply frame_refl | exact H].
  - cbn [run] in H.
    apply IH1 in H as (w1 & s1 & p1 & c1 & -> & Hw1 & Hf1 & H).
    apply IH2 in H as (w2 & s2 & p2 & c2 & -> & Hw2 & Hf2 & H).
    exists (w1 ++ w2), s2, p2, c2. rewrite <- app_assoc.
    split; [reflexivity|]. split; [exists w1, w2; auto|]. split; [|exact H].
    cbn [groups]. now apply frame_trans with c1.
  - cbn [run] in H. apply orelse_Some in H as [H | H].
    + apply IH1 in H as (w & s' & p' & c' & -> & Hw & Hf & H).
      exists w, s', p', c'.
      split; [reflexivity|]. split; [now left|]. split; [|exact H].
      cbn [groups]. eapply frame_weaken; [|exact Hf]. apply incl_appl, incl_refl.
    + apply IH2 in H as (w & s' & p' & c' & -> & Hw & Hf & H).
      exists w, s', p', c'.
      split; [reflexivity|]. split; [now right|]. split; [|exact H].
      cbn [groups]. eapply frame_weaken; [|exact Hf]. apply incl_appr, incl_refl.
  - rewrite run_rep in H.
    apply (rep_loop_sound (run ml r1) (matches r1)) in H
      as (ws & s' & p' & c' & -> & Hws & Hf & Hin & H).
    + exists (concat ws), s', p', c'.
      split; [reflexivity|]. split; [exists ws; auto|]. split; [exact Hf | exact H].
    + exact IH1.
    + intros h _. lia.
  - cbn [run] in H.
    apply IH1 in H as (w & s' & p' & c' & -> & Hw & Hf & H).
    eexists w, s', p', _.
    split; [reflexivity|]. split; [exact Hw|]. split; [|exact H].
    intros j Hj. cbn [groups In] in Hj. cbn [capture].
    destruct (Nat.eqb_spec j i) as [-> | Hne]; [tauto|].
    rewrite capture_clear by (simpl; intuition congruence).
    apply Hf. tauto.
  - refine (Hnone k prev s c res _). cbn [run] in H. destruct prev as [a|]; [|exact H].
    destruct (ml && _); [exact H | discriminate].
  - refine (Hnone k prev s c res _). cbn [run] in H. destruct s as [|a s]; [exact H|].
    destruct (ml && _); [exact H | discriminate].
  - refine (Hnone k prev s c res _). cbn [run] in H. destruct (p prev); [exact H | discriminate].
Qed.

(** A group that took part holds what its pattern consumed. *)
Lemma run_group_sound (ml : bool) (i : nat) (r : regex) (k : cont) prev s c res :
  run ml (Grp i r) k prev s c = Some res ->
  exists w s' prev' c',
    s = w ++ s' /\ matches r w /\ capture c' i = Some w
    /\ frame (i :: groups r) c c' /\ k prev' s' c' = Some res.
Proof.
  intros H. cbn [run] in H.
  apply run_sound in H as (w & s' & p' & c' & -> & Hw & Hf & H).
  rewrite firstn_consumed in H.
  eexists w, s', p', _.
  split; [reflexivity|]. split; [exact Hw|]. split; [|split; [|exact H]].
  - cbn [capture]. now rewrite Nat.eqb_refl.
  - intros j Hj. cbn [In] in Hj. cbn [capture].
    destruct (Nat.eqb_spec j i) as [-> | Hne]; [tauto|].
    rewrite capture_clear by (simpl; intuition congruence).
    apply Hf. tauto.
Qed.

Lemma hit_sound (re : RegExp) prev (s rest : chars) (c : captures) :
  run (multiline re) (pattern re) (fun _ s' c' => Some (s', c')) prev s []
  = Some (rest, c) ->
  s = firstn (List.length s - List.length rest) s ++ rest
  /\ matches (pattern re) (firstn (List.length s - List.length rest) s).
Proof.
  intros Hrun.
  apply run_sound in Hrun as (w & s' & p' & c' & -> & Hw & _ & Hk).
  injection Hk as <- <-. rewrite firstn_consumed. auto.
Qed.

(** A match found by [exec] lies in the input, and its captures are those
    of a run at the place of the match. *)
Lemma search_sound (re : RegExp) :
  forall s prev skipped m,
    search re prev skipped s = Some m ->
    exists pre prev',
      s = pre ++ matched m ++ after m
      /\ matches (pattern re) (matched m)
      /\ run (multiline re) (pattern re) (fun _ s' c' => Some (s', c'))
             prev' (matched m ++ after m) []
         = Some (after m, caps m).
Proof.
  assert (Hhit : forall s prev skipped rest c,
             run (multiline re) (pattern re) (fun _ s' c' => Some (s', c')) prev s []
             = Some (rest, c) ->
             let m := {| before := rev skipped;
                         matched := firstn (List.length s - List.length rest) s;
                         caps := c; after := rest |} in
             exists pre prev',
               s = pre ++ matched m ++ after m
               /\ matches (pattern re) (matched m)
               /\ run (multiline re) (pattern re) (fun _ s' c' => Some (s', c'))
                      prev' (matched m ++ after m) []
                  = Some (after m, caps m)).
  { intros s prev skipped rest c Hrun.
    destruct (hit_sound re prev s rest c Hrun) as [Heq Hw].
    exists [], prev. cbn [matched after caps app]. rewrite <- Heq. auto. }
  induction s as [|a s IH]; intros prev skipped m H; cbn [search] in H.
  - destruct (run _ _ _ prev [] []) as [[rest c]|] eqn:Hrun; [|discriminate].
    injection H as <-. exact (Hhit _ _ skipped _ _ Hrun).
  - destruct (run _ _ _ prev (a :: s) []) as [[rest c]|] eqn:Hrun.
    + injection H as <-. exact (Hhit _ _ skipped _ _ Hrun).
    + apply IH in H as (pre & p' & Heq & Hw & Hrun').
      exists (a :: pre), p'.
      split; [simpl; now f_equal|]. split; [exact Hw | exact Hrun'].
Qed.

Lemma matches_classes (Q : ascii -> Prop) (r : regex) :
  classes_within Q r -> forall w, matches r w -> Forall Q w.
Proof.
  induction r as [|p|r1 IH1 r2 IH2|r1 IH1 r2 IH2|lo hi r1 IH1|i r1 IH1| | |p];
    cbn [classes_within matches]; intros Hc w Hw; subst; try constructor.
  - destruct Hw as (a & -> & Hp). constructor; [auto | constructor].
  - destruct Hw as (w1 & w2 & -> & H1 & H2), Hc as [Hc1 Hc2].
    apply Forall_app. split; [now apply IH1 | now apply IH2].
  - destruct Hc as [Hc1 Hc2], Hw as [Hw | Hw]; [now apply IH1 | now apply IH2].
  - destruct Hw as (ws & -> & Hws & _).
    induction Hws as [|x ws Hx Hws IHws]; simpl; [constructor|].
    apply Forall_app. split; [now apply IH1 | exact IHws].
  - now apply IH1.
Qed.

Lemma matches_leading (Q : ascii -> Prop) (r : regex) :
  leading Q r -> forall w, matches r w -> exists a w', w = a :: w' /\ Q a.
Proof.
  induction r as [|p|r1 IH1 r2 IH2|r1 IH1 r2 IH2|lo hi r1 IH1|i r1 IH1| | |p];
    cbn [leading matches]; intros Hl w Hw; try contradiction.
  - destruct Hw as (a & -> & Hp). eauto.
  - destruct Hw as (w1 & w2 & -> & H1 & H2). destruct Hl as [Hl | [Hn Hl]].
    + destruct (IH1 Hl _ H1) as (a & w' & -> & Ha). simpl. eauto.
    + assert (w1 = []) by (destruct r1; try contradiction; exact H1). subst w1.
      simpl. now apply IH2.
  - destruct Hl as [Hl1 Hl2], Hw as [Hw | Hw]; [now apply IH1 | now apply IH2].
  - destruct Hl as (Hlo & Hhi & Hl), Hw as (ws & -> & Hws & Hin).
    destruct ws as [|x ws].
    + exfalso. unfold within in Hin. simpl in Hin. destruct hi as [h|].
      * specialize (Hhi h eq_refl). lia.
      * lia.
    + apply Forall_cons_iff in Hws as [Hx _].
      destruct (IH1 Hl _ Hx) as (a & w' & -> & Ha). simpl. eauto.
  - now apply IH1.
Qed.

End Engine.

Section Tokens.
Import Regex.

Lemma digit_not_space (a : ascii) : is_digit a = true -> is_space a = false.
Proof.
  unfold is_digit, in_range, is_space, code.
  change (N_of_ascii "0") with 48. change (N_of_ascii "9") with 57.
  intros [H1 H2]%andb_prop. apply N.leb_le in H1, H2.
  apply orb_false_intro; [apply orb_false_intro|].
  - apply andb_false_intro2. apply N.leb_gt. lia.
  - apply N.eqb_neq. lia.
  - apply N.eqb_neq. lia.
Qed.

Lemma lit_char_not_space (x a : ascii) :
  is_space x = false -> Ascii.eqb x a = true -> not_space a.
Proof. intros Hx ->%Ascii.eqb_eq. exact Hx. Qed.

(** A pattern that is a group followed by a rest that has no group of
    that index: at the end the group holds what it consumed. *)
Lemma group_then (ml : bool) (i : nat) (A R : regex) (k : cont) prev s c res :
  ~ In i (groups R) ->
  run ml (Seq (Grp i A) R) k prev s c = Some res ->
  exists w wR s' prev' c',
    s = w ++ wR ++ s' /\ matches A w /\ capture c' i = Some w
    /\ k prev' s' c' = Some res.
Proof.
  intros Hi H. cbn [run] in H.
  apply run_group_sound in H as (w & s1 & p1 & c1 & -> & Hw & Hc & _ & H).
  apply run_sound in H as (wR & s2 & p2 & c2 & -> & _ & Hf & H).
  exists w, wR, s2, p2, c2.
  split; [reflexivity|]. split; [exact Hw|]. split; [|exact H].
  now rewrite (Hf i Hi).
Qed.

(** The shape of the two patterns of [getVersionFromFileContent]. *)
Lemma plainRegExp_shape :
  exists A R,
    pattern (fst util.plainRegExp) = Seq (Grp 1 A) R
    /\ snd util.plainRegExp = 1%nat
    /\ ~ In 1%nat (groups R)
    /\ leading is_digit_char A /\ classes_within not_space A.
Proof.
  exists (Seq (Behind util.after_boundary)
              (Grp 2 (Seq (plus digit) (star nonspace)))),
         (Grp 3 (Alt space Eol)).
  split; [reflexivity|]. split; [reflexivity|].
  split; [cbn [groups In app]; intuition discriminate|].
  split.
  - cbn [leading consumes_nothing plus digit]. right. split; [exact I|]. left.
    split; [lia|]. split; [discriminate|]. intros a Ha. exact Ha.
  - cbn [classes_within plus star digit nonspace]. split; [exact I|]. split.
    + intros a Ha. now apply digit_not_space.
    + intros a Ha. now apply negb_true_iff in Ha.
Qed.

Ltac classes_not_space :=
  repeat match goal with
         | |- _ /\ _ => split
         | |- True => exact I
         | |- forall a, is_digit a = true -> _ =>
             intros a Ha; now apply digit_not_space
         | |- forall a, Ascii.eqb _ a = true -> _ =>
             intros a Ha; eapply lit_char_not_space; [|exact Ha]; reflexivity
         end.

Lemma toolVersionsRegExp_shape :
  exists J X Y V,
    pattern (fst util.toolVersionsRegExp)
    = Seq Bol (Seq J (Seq X (Seq Y (Seq (Grp 2 V) Eol))))
    /\ snd util.toolVersionsRegExp = 2%nat
    /\ leading is_digit_char V /\ classes_within not_space V.
Proof.
  exists (Grp 1 (Seq (lit "java") (plus space))),
         (opt (Seq (star nonspace) (lit "-"))), (opt (lit "v")),
         (seq [Grp 3 (plus digit);
               opt (Grp 4 (Seq (lit ".") (plus digit)));
               opt (Grp 5 (Seq (lit ".") (plus digit)));
               opt (Grp 6 (Seq (lit "+") (plus digit)));
               opt (Grp 7 (Seq (lit "-ea")
                               (opt (Grp 8 (Seq (lit ".") (plus digit))))))]).
  split; [reflexivity|]. split; [reflexivity|]. split.
  - cbn [seq leading plus digit]. left.
    split; [lia|]. split; [discriminate|]. intros a Ha. exact Ha.
  - cbn [seq classes_within plus opt digit lit lit_chars lit_char
             list_ascii_of_string].
    classes_not_space.
Qed.

Lemma leading_classes_token (A : regex) (w : chars) :
  leading is_digit_char A -> classes_within not_space A -> matches A w ->
  exists a t', w = a :: t' /\ is_digit a = true /\ Forall not_space w.
Proof.
  intros Hl Hc Hw. destruct (matches_leading _ _ Hl _ Hw) as (a & t' & -> & Ha).
  exists a, t'. split; [reflexivity|]. split; [exact Ha|].
  exact (matches_classes _ _ Hc _ Hw).
Qed.

Lemma plain_token_sound (content : chars) :
  plain_token content = [] \/ token_of content (plain_token content).
Proof.
  unfold plain_token.
  destruct plainRegExp_shape as (A & R & Hpat & Hidx & HR & Hl & Hc).
  destruct (exec (fst util.plainRegExp) content) as [m|] eqn:Hex; [|now left].
  right. unfold exec in Hex.
  apply search_sound in Hex as (pre & p' & Hcontent & _ & Hrun).
  rewrite Hpat in Hrun.
  apply group_then in Hrun as (w & wR & s' & p2 & c2 & Heq & Hw & Hcap & Hk);
    [|exact HR].
  injection Hk as -> ->. unfold group. rewrite Hidx, Hcap. cbn [text default].
  destruct (leading_classes_token A w Hl Hc Hw) as (a & t' & -> & Ha & Hall).
  exists pre, (wR ++ after m), a, t'.
  split; [|auto]. rewrite Hcontent, Heq. reflexivity.
Qed.

Lemma tool_versions_token_sound (content : chars) :
  tool_versions_token content = []
  \/ token_of content (tool_versions_token content).
Proof.
  unfold tool_versions_token.
  destruct toolVersionsRegExp_shape as (J & X & Y & V & Hpat & Hidx & Hl & Hc).
  destruct (exec (fst util.toolVersionsRegExp) content) as [m|] eqn:Hex; [|now left].
  right. unfold exec in Hex.
  apply search_sound in Hex as (pre & p' & Hcontent & _ & Hrun).
  rewrite Hpat in Hrun. cbn [run] in Hrun.
  change (run true Bol ?k) with (run true Bol k) in Hrun.
  assert (Hrun' :
    run (multiline (fst util.toolVersionsRegExp)) Bol
      (run (multiline (fst util.toolVersionsRegExp)) J
         (run (multiline (fst util.toolVersionsRegExp)) X
            (run (multiline (fst util.toolVersionsRegExp)) Y
               (run (multiline (fst util.toolVersionsRegExp)) (Seq (Grp 2 V) Eol)
                  (fun _ s' c' => Some (s', c'))))))
      p' (matched m ++ after m) [] = Some (after m, caps m)) by exact Hrun.
  clear Hrun.
  apply run_sound in Hrun' as (w0 & s0 & p0 & c0 & Heq0 & _ & _ & H).
  apply run_sound in H as (w1 & s1 & p1 & c1 & -> & _ & _ & H).
  apply run_sound in H as (w2 & s2 & p2 & c2 & -> & _ & _ & H).
  apply run_sound in H as (w3 & s3 & p3 & c3 & -> & _ & _ & H).
  apply group_then in H as (w & wR & s' & p4 & c4 & -> & Hw & Hcap & Hk);
    [|cbn; tauto].
  injection Hk as -> ->. unfold group. rewrite Hidx, Hcap. cbn [text default].
  destruct (leading_classes_token V w Hl Hc Hw) as (a & t' & -> & Ha & Hall).
  exists (pre ++ w0 ++ w1 ++ w2 ++ w3), (wR ++ after m), a, t'.
  split; [|auto]. rewrite Hcontent, Heq0. now rewrite <- !app_assoc.
Qed.

Lemma fileContent_sound (content versionFile : chars) :
  util.fileContent content versionFile = []
  \/ token_of content (util.fileContent content versionFile).
Proof.
  destruct (chars_eqb (path.basename versionFile) (str ".tool-versions")) eqn:E.
  - apply chars_eqb_eq in E. rewrite (fileContent_tool_versions _ _ E).
    apply tool_versions_token_sound.
  - apply chars_eqb_neq in E. rewrite (fileContent_plain _ _ E).
    apply plain_token_sound.
Qed.

End Tokens.

Section Decimal.

Lemma string_of_uint_digits (d : Decimal.uint) :
  Forall is_digit_char
         (list_ascii_of_string (DecimalString.NilEmpty.string_of_uint d)).
Proof.
  induction d; simpl; constructor; try assumption; reflexivity.
Qed.

Lemma of_N_digits (n : N) : of_N n <> [] /\ Forall is_digit_char (of_N n).
Proof.
  unfold of_N, DecimalString.NilZero.string_of_uint.
  pose proof (string_of_uint_digits (N.to_uint n)) as H.
  destruct (N.to_uint n); (split; [discriminate|]); try exact H.
  repeat constructor.
Qed.

End Decimal.

Section VersionFileResults.
Import semver.

Variable majors : list chars.

Lemma avoidOldNotation_piece (token : chars) :
  exists dropped, token = dropped ++ util.avoidOldNotation token.
Proof.
  unfold util.avoidOldNotation.
  destruct (startsWith (str "1.") token) eqn:E.
  - exists (str "1."). exact (startsWith_prefix _ _ E).
  - now exists [].
Qed.

(** X1. The version token that [getVersionFromFileContent] takes from the
    content, with either pattern, is a piece of the content that begins
    with a decimal digit and holds no white space. *)
Theorem fileContent_token (content versionFile : chars) (a : ascii) (t : chars) :
  util.fileContent content versionFile = a :: t ->
  (exists pre post, content = pre ++ (a :: t) ++ post)
  /\ is_digit a = true
  /\ Forall (fun x => is_space x = false) (a :: t).
Proof.
  intros H.
  destruct (fileContent_sound content versionFile) as [Hnil | Htok];
    [congruence|].
  rewrite H in Htok. destruct Htok as (pre & post & a' & t' & Hc & Heq & Ha & Hall).
  injection Heq as <- <-. eauto.
Qed.

(** X2. A content without any decimal digit gives [null], whatever the
    version file and the distribution: no exception is thrown. *)
Theorem getVersionFromFileContent_no_digit (content d f : chars) :
  Forall (fun x => is_digit x = false) content ->
  util.getVersionFromFileContent majors content d f = Return None.
Proof.
  intros Hnone. rewrite getVersionFromFileContent_token.
  destruct (util.fileContent content f) as [|a t] eqn:E; [reflexivity|].
  apply fileContent_token in E as ((pre & post & ->) & Ha & _).
  apply Forall_app in Hnone as [_ Hnone]. simpl in Hnone.
  apply Forall_cons_iff in Hnone as [Hno _]. congruence.
Qed.

(** X3. A string that [getVersionFromFileContent] returns is never empty;
    for a distribution of the major-only set it consists of decimal
    digits. *)
Theorem getVersionFromFileContent_result (content d f s : chars) :
  util.getVersionFromFileContent majors content d f = Return (Some s) ->
  s <> [] /\ (In d majors -> Forall (fun x => is_digit x = true) s).
Proof.
  rewrite getVersionFromFileContent_token.
  destruct (util.fileContent content f) as [|a t]; [discriminate|].
  destruct (util.resolve (a :: t)) as [[[|b v]|sv]|]; try discriminate;
    unfold util.finish;
    (destruct (util.only_major majors d) eqn:Hd;
     [ intros H;
       match type of H with
       | and_then ?m _ = _ => destruct m as [n|e]; [|discriminate]
       end;
       injection H as <-;
       split; [apply of_N_digits | intros _; apply of_N_digits]
     | intros H; injection H as <-;
       apply only_major_not_In in Hd;
       split; [|intros Hin; contradiction] ]).
  - discriminate.
  - unfold util.toString, version.
    destruct (of_N_digits (major sv)) as [Hne _].
    destruct (of_N (major sv)); [congruence | discriminate].
Qed.

(** X4. For a distribution outside the major-only set, a result that
    passed the range check is copied from the content: it is a piece of
    the content and holds no white space. *)
Theorem getVersionFromFileContent_copied (content d f s : chars) :
  ~ In d majors ->
  validRange (rawVersion (util.fileContent content f)) <> None ->
  util.getVersionFromFileContent majors content d f = Return (Some s) ->
  (exists pre post, content = pre ++ s ++ post)
  /\ Forall (fun x => is_space x = false) s.
Proof.
  intros Hd%only_major_not_In Hvalid.
  rewrite getVersionFromFileContent_token.
  destruct (util.fileContent content f) as [|a t] eqn:E; [discriminate|].
  rewrite resolve_cases.
  destruct (validRange (rawVersion (a :: t))) as [range|]; [|congruence].
  destruct (tentativeVersion (a :: t)) as [|b v] eqn:Et; [discriminate|].
  unfold util.finish. rewrite Hd. intros H. injection H as <-.
  cbn [util.toString].
  apply fileContent_token in E as ((pre & post & ->) & _ & Hall).
  destruct (avoidOldNotation_piece (a :: t)) as (dropped & Hpiece).
  unfold tentativeVersion in Et. rewrite Et in Hpiece. split.
  - exists (pre ++ dropped), post. rewrite Hpiece. now rewrite <- !app_assoc.
  - rewrite Hpiece in Hall. now apply Forall_app in Hall as [_ Hall].
Qed.

End VersionFileResults.

Lemma fileContent_token_witness :
  (exists pre post, str "openjdk64-17.0.1" = pre ++ str "17.0.1" ++ post)
  /\ is_digit "1" = true
  /\ Forall (fun x => is_space x = false) (str "17.0.1").
Proof.
  apply (fileContent_token (str "openjdk64-17.0.1") (str ".java-version")
           "1"%char (str "7.0.1")).
  vm_compute. reflexivity.
Defined.

Lemma getVersionFromFileContent_no_digit_witness :
  util.getVersionFromFileContent [str "corretto"] (str "latest lts") (str "corretto")
    (str ".java-version") = Return None.
Proof.
  apply getVersionFromFileContent_no_digit.
  repeat constructor.
Defined.

Lemma getVersionFromFileContent_result_witness :
  str "17" <> [] /\ (In (str "corretto") [str "corretto"] ->
                     Forall (fun x => is_digit x = true) (str "17")).
Proof.
  apply (getVersionFromFileContent_result [str "corretto"] (str "17.0.9")
           (str "corretto") (str ".java-version")).
  vm_compute. reflexivity.
Defined.

Lemma getVersionFromFileContent_copied_witness :
  (exists pre post, str "java temurin-17.0.9+9" = pre ++ str "17.0.9+9" ++ post)
  /\ Forall (fun x => is_space x = false) (str "17.0.9+9").
Proof.
  apply (getVersionFromFileContent_copied [str "corretto"] (str "java temurin-17.0.9+9")
           (str "temurin") (str ".tool-versions")).
  - vm_compute. intros [H | []]. discriminate.
  - vm_compute. discriminate.
  - vm_compute. reflexivity.
Defined.

Section Totality.
Import Regex semver.

Lemma cmp_returns (a b : SemVer) (op : chars) :
  In op comparison_operators -> exists x, cmp a op b = Return x.
Proof.
  unfold comparison_operators. cbn [In].
  intros [<- | [<- | [<- | [<- | [<- | []]]]]]; unfold cmp;
    repeat match goal with
           | |- context [chars_eqb ?x ?y] =>
               let v := eval vm_compute in (chars_eqb x y) in
               change (chars_eqb x y) with v
           end;
    cbn [orb]; eauto.
Qed.

Lemma Comparator_test_returns (c : Comparator) (v : SemVer) :
  well_formed c -> exists x, Comparator_test c v = Return x.
Proof.
  unfold Comparator_test, well_formed.
  destruct (semver c) as [sv|]; [|eauto].
  intros [H | H]; [discriminate | now apply cmp_returns].
Qed.

Lemma matches_lit_char (x : ascii) (w : chars) :
  matches (lit_char x) w -> w = [x].
Proof. intros (a & -> & Ha). apply Ascii.eqb_eq in Ha. now subst. Qed.

Lemma matches_opt (r : regex) (w : chars) :
  matches (opt r) w -> w = [] \/ matches r w.
Proof.
  intros (ws & -> & Hws & Hin). unfold within in Hin.
  destruct ws as [|x [|y ws]]; simpl in *; [now left | | lia].
  right. rewrite app_nil_r. now apply Forall_cons_iff in Hws as [Hx _].
Qed.

(** What [((?:<|>)?=?)] can hold. *)
Lemma matches_gtlt (w : chars) :
  matches (Seq (opt (Alt (lit "<") (lit ">"))) (opt (lit "="))) w ->
  In w [[]; str "<"; str ">"; str "="; str "<="; str ">="].
Proof.
  intros (w1 & w2 & -> & H1 & H2).
  apply matches_opt in H1, H2.
  assert (E1 : w1 = [] \/ w1 = str "<" \/ w1 = str ">").
  { destruct H1 as [-> | [H1 | H1]]; [now left | |];
      apply matches_lit_char in H1; subst; auto. }
  assert (E2 : w2 = [] \/ w2 = str "=").
  { destruct H2 as [-> | H2]; [now left|].
    apply matches_lit_char in H2; subst; auto. }
  destruct E1 as [-> | [-> | ->]], E2 as [-> | ->]; simpl; tauto.
Qed.

Lemma COMPARATOR_shape :
  exists R,
    pattern re.COMPARATOR
    = Alt (Seq Bol (Seq (Grp 1 (Seq (opt (Alt (lit "<") (lit ">"))) (opt (lit "="))))
                        R))
          (Seq Bol Eol)
    /\ multiline re.COMPARATOR = false
    /\ ~ In 1%nat (groups R).
Proof.
  eexists. split; [reflexivity|]. split; [reflexivity|].
  vm_compute. intuition discriminate.
Qed.

Lemma exec_COMPARATOR_operator (s : chars) (m : MatchResult) :
  exec re.COMPARATOR s = Some m ->
  In (text (group m 1)) [[]; str "<"; str ">"; str "="; str "<="; str ">="].
Proof.
  intros Hex. unfold exec in Hex.
  apply search_sound in Hex as (pre & p' & _ & _ & Hrun).
  destruct COMPARATOR_shape as (R & Hpat & Hml & HR).
  rewrite Hpat, Hml in Hrun. cbn [run] in Hrun.
  apply orelse_Some in Hrun as [Hrun | Hrun].
  - change (run false Bol
              (run false (Seq (Grp 1 (Seq (opt (Alt (lit "<") (lit ">")))
                                          (opt (lit "=")))) R)
                   (fun _ s' c' => Some (s', c')))
              p' (matched m ++ after m) [] = Some (after m, caps m)) in Hrun.
    apply run_sound in Hrun as (w0 & s0 & p0 & c0 & _ & _ & _ & H).
    apply group_then in H as (w & wR & s' & p1 & c1 & _ & Hw & Hcap & Hk);
      [|exact HR].
    injection Hk as _ ->. unfold group. rewrite Hcap. cbn [text default].
    now apply matches_gtlt.
  - change (run false (Seq Bol Eol) (fun _ s' c' => Some (s', c'))
              p' (matched m ++ after m) [] = Some (after m, caps m)) in Hrun.
    apply run_sound in Hrun as (w0 & s0 & p0 & c0 & _ & _ & Hf & Hk).
    injection Hk as _ ->. unfold group.
    rewrite (Hf 1%nat) by (cbn; tauto). cbn. tauto.
Qed.

Lemma new_Comparator_well_formed (comp : chars) (c : Comparator) :
  new_Comparator comp = Return c -> well_formed c.
Proof.
  unfold new_Comparator.
  destruct (exec re.COMPARATOR _) as [m|] eqn:Hex; [|discriminate].
  apply exec_COMPARATOR_operator in Hex.
  destruct (falsy (group m 2)).
  - intros H. injection H as <-. now left.
  - destruct (new_SemVer _) as [v|e]; [|discriminate].
    cbn [and_then]. intros H. injection H as <-. right. cbn [operator].
    unfold comparison_operators.
    cbn [In] in Hex.
    destruct Hex as [<- | [<- | [<- | [<- | [<- | [<- | []]]]]]];
      vm_compute; tauto.
Qed.

Lemma mapM_Forall {A B} (f : A -> completion B) (P : B -> Prop) :
  (forall x y, f x = Return y -> P y) ->
  forall xs ys, mapM f xs = Return ys -> Forall P ys.
Proof.
  intros Hf. induction xs as [|x xs IH]; intros ys H; cbn [mapM] in H.
  - injection H as <-. constructor.
  - destruct (f x) as [y|e] eqn:Hx; [|discriminate]. cbn [and_then] in H.
    destruct (mapM f xs) as [ys'|e]; [|discriminate]. cbn [and_then] in H.
    injection H as <-. constructor; [now apply (Hf x) | now apply IH].
Qed.

Lemma map_set_Forall (P : Comparator -> Prop) k c m :
  P c -> Forall P (map snd m) -> Forall P (map snd (map_set k c m)).
Proof.
  intros Hc. induction m as [|[k' c'] m IH]; cbn [map_set map snd]; intros H.
  - now constructor.
  - apply Forall_cons_iff in H as [H1 H2].
    destruct (chars_eqb k k'); cbn [map snd]; constructor; auto.
Qed.

Lemma collect_Forall (P : Comparator -> Prop) :
  forall comps m,
    Forall P comps -> Forall P (map snd m) ->
    match collect comps m with
    | inl cs => Forall P cs
    | inr m' => Forall P (map snd m')
    end.
Proof.
  induction comps as [|c comps IH]; intros m Hc Hm; cbn [collect]; [exact Hm|].
  apply Forall_cons_iff in Hc as [Hc Hcs].
  destruct (isNullSet c); [now repeat constructor|].
  apply IH; [exact Hcs | now apply map_set_Forall].
Qed.

Lemma Forall_filter_keep {A} (P : A -> Prop) (f : A -> bool) (xs : list A) :
  Forall P xs -> Forall P (List.filter f xs).
Proof.
  induction 1 as [|x xs Hx Hxs IH]; cbn [List.filter]; [constructor|].
  destruct (f x); [now constructor | exact IH].
Qed.

Lemma Forall_map_snd_filter {A B} (P : B -> Prop) (f : A * B -> bool) (m : list (A * B)) :
  Forall P (map snd m) -> Forall P (map snd (List.filter f m)).
Proof.
  induction m as [|x m IH]; cbn [List.filter map]; intros H; [constructor|].
  apply Forall_cons_iff in H as [H1 H2].
  destruct (f x); cbn [map]; [constructor|]; auto.
Qed.

Lemma parseRange_well_formed (range : chars) (cs : list Comparator) :
  parseRange range = Return cs -> Forall well_formed cs.
Proof.
  unfold parseRange.
  destruct (mapM new_Comparator _) as [comparators|e] eqn:Hm; [|discriminate].
  cbn [and_then].
  apply (mapM_Forall _ well_formed new_Comparator_well_formed) in Hm.
  pose proof (collect_Forall well_formed comparators [] Hm (List.Forall_nil _)) as Hc.
  destruct (collect comparators []) as [nullset|rangeMap].
  - intros H. injection H as <-. exact Hc.
  - intros H. injection H as <-.
    destruct (Nat.ltb 1 (List.length rangeMap)); [|exact Hc].
    now apply Forall_map_snd_filter.
Qed.

Lemma new_Range_well_formed (range : chars) (R : Range) :
  new_Range range = Return R -> Forall (Forall well_formed) (set R).
Proof.
  unfold new_Range.
  destruct (mapM _ _) as [sets|e] eqn:Hm; [|discriminate]. cbn [and_then].
  apply (mapM_Forall _ (Forall well_formed)) in Hm;
    [|intros x y; apply parseRange_well_formed].
  set (kept := List.filter _ sets).
  assert (Hkept : Forall (Forall well_formed) kept)
    by now apply Forall_filter_keep.
  destruct kept as [|first [|second more]]; [discriminate | |].
  - intros H. injection H as <-. exact Hkept.
  - set (live := List.filter _ (first :: second :: more)).
    assert (Hlive : Forall (Forall well_formed) live)
      by now apply Forall_filter_keep.
    apply Forall_cons_iff in Hkept as [Hfirst _].
    destruct live as [|l1 [|l2 ls]].
    + intros H. injection H as <-. now repeat constructor.
    + intros H. injection H as <-. exact Hlive.
    + destruct (List.find is_star _) as [c|] eqn:Hfind.
      * intros H. injection H as <-. cbn [set].
        apply find_some in Hfind as [Hin _].
        constructor; [|constructor].
        rewrite List.Forall_forall in Hlive. now apply Hlive.
      * intros H. injection H as <-. exact Hlive.
Qed.

Lemma all_test_returns (v : SemVer) :
  forall comps, Forall well_formed comps -> exists x, all_test comps v = Return x.
Proof.
  induction comps as [|c comps IH]; intros H; cbn [all_test]; [eauto|].
  apply Forall_cons_iff in H as [Hc Hcs].
  destruct (Comparator_test_returns c v Hc) as [b ->]. cbn [and_then].
  destruct b; [now apply IH | eauto].
Qed.

Lemma testSet_returns (v : SemVer) (comps : list Comparator) :
  Forall well_formed comps -> exists x, testSet comps v = Return x.
Proof.
  intros H. unfold testSet.
  destruct (all_test_returns v comps H) as [ok ->]. cbn [and_then].
  destruct (negb ok); [eauto|]. destruct (negb _); eauto.
Qed.

Lemma any_set_returns (v : SemVer) :
  forall sets, Forall (Forall well_formed) sets ->
               exists x, any_set sets v = Return x.
Proof.
  induction sets as [|s sets IH]; intros H; cbn [any_set]; [eauto|].
  apply Forall_cons_iff in H as [Hs Hsets].
  destruct (testSet_returns v s Hs) as [b ->]. cbn [and_then].
  destruct b; [eauto | now apply IH].
Qed.

(** [semver.satisfies] never throws. *)
Lemma satisfies_returns (ver range : chars) :
  exists x, satisfies ver range = Return x.
Proof.
  unfold satisfies.
  destruct (new_Range range) as [R|e] eqn:HR; [|eauto].
  apply new_Range_well_formed in HR. unfold Range_test.
  destruct ver as [|a ver]; [eauto|].
  destruct (new_SemVer (a :: ver)) as [v|e]; [|eauto].
  now apply any_set_returns.
Qed.

(** X5. [isVersionSatisfies] throws only when the range is a valid exact
    version with build metadata and the version is not a valid version;
    in every other case it returns a boolean. *)
Theorem isVersionSatisfies_throws (range ver : chars) (e : error) :
  util.isVersionSatisfies range ver = Throw e ->
  exists sr, parse range = Some sr /\ build sr <> [] /\ parse ver = None.
Proof.
  unfold util.isVersionSatisfies, valid.
  destruct (satisfies_returns ver range) as [x Hx]. rewrite Hx. intros H.
  destruct (parse range) as [sr|] eqn:Hr; [|discriminate H]. cbn in H.
  destruct (build sr) as [|b bs] eqn:Hb; [discriminate H|]. cbn in H.
  pose proof Hr as Hnew. apply parse_Some in Hnew.
  unfold compareBuild in H. rewrite Hnew in H. cbn [and_then] in H.
  destruct (new_SemVer ver) as [sv|e'] eqn:Hv; [discriminate H|].
  exists sr. split; [reflexivity|]. split; [congruence|].
  apply parse_None. eauto.
Qed.

End Totality.

Lemma isVersionSatisfies_throws_witness :
  exists sr, semver.parse (str "21.0.1+12") = Some sr /\ semver.build sr <> []
             /\ semver.parse (str "21") = None.
Proof.
  apply (isVersionSatisfies_throws (str "21.0.1+12") (str "21")
           (TypeError (str "Invalid Version: 21"))).
  vm_compute. reflexivity.
Defined.

Section RangeMatcherEdges.
Import semver.

Lemma isVersionSatisfies_by_range (range ver : chars) :
  (forall sr, parse range = Some sr -> build sr = []) ->
  util.isVersionSatisfies range ver = satisfies ver range.
Proof.
  intros Hr. unfold util.isVersionSatisfies, valid.
  destruct (parse range) as [sr|]; [|reflexivity]. simpl.
  now rewrite (Hr sr eq_refl).
Qed.

(** X6. For a range that is not an exact version with build metadata,
    [isVersionSatisfies] returns [false], without throwing, for the empty
    version string, and for every version when the range is not a valid
    range. *)
Theorem isVersionSatisfies_never_satisfied (range ver : chars) :
  (forall sr, parse range = Some sr -> build sr = []) ->
  ver = [] \/ validRange range = None ->
  util.isVersionSatisfies range ver = Return false.
Proof.
  intros Hr Hcase. rewrite (isVersionSatisfies_by_range _ _ Hr).
  unfold satisfies. destruct Hcase as [-> | Hinvalid].
  - now destruct (new_Range range).
  - unfold validRange in Hinvalid.
    destruct (new_Range range) as [R|e]; [|reflexivity].
    now destruct (Range_range R).
Qed.

Lemma identifiers_match_refl (xs : list identifier) : identifiers_match xs xs.
Proof. induction xs; constructor; assumption. Qed.

Lemma identifiers_match_sym (xs ys : list identifier) :
  identifiers_match xs ys -> identifiers_match ys xs.
Proof.
  induction 1 as [|a xs ys H IH|a b xs ys Hne Ha Hb Hv].
  - constructor.
  - now constructor.
  - apply match_number; auto.
Qed.

Lemma same_build_version_sym (a b : SemVer) :
  same_build_version a b -> same_build_version b a.
Proof.
  intros [Hmain Hbuild]. split.
  - destruct Hmain as [Hv | (H1 & H2 & H3 & H4)]; [left; congruence|].
    right. repeat split; try congruence. now apply identifiers_match_sym.
  - now apply identifiers_match_sym.
Qed.

Lemma isVersionSatisfies_build_iff (r v : chars) (sr : SemVer) :
  parse r = Some sr -> build sr <> [] ->
  util.isVersionSatisfies r v = Return true
  <-> exists sv, parse v = Some sv /\ same_build_version sr sv.
Proof.
  intros Hr Hb. rewrite <- (compareBuild_zero r v sr Hr).
  unfold util.isVersionSatisfies, valid. rewrite Hr. simpl.
  destruct (build sr); [congruence | reflexivity].
Qed.

(** X7. Matching against an exact version with build metadata is
    reflexive and symmetric: such a version satisfies itself, and when a
    version satisfies it, that version is itself an exact version with
    build metadata which the first one satisfies. *)
Theorem isVersionSatisfies_build_symmetric (r v : chars) (sr : SemVer) :
  parse r = Some sr -> build sr <> [] ->
  util.isVersionSatisfies r r = Return true
  /\ (util.isVersionSatisfies r v = Return true ->
      (exists sv, parse v = Some sv /\ build sv <> [])
      /\ util.isVersionSatisfies v r = Return true).
Proof.
  intros Hr Hb. split.
  - apply (isVersionSatisfies_build_iff r r sr Hr Hb).
    exists sr. split; [exact Hr|].
    split; [now left | apply identifiers_match_refl].
  - intros H. apply (isVersionSatisfies_build_iff r v sr Hr Hb) in H
      as (sv & Hv & Hsame).
    assert (Hbv : build sv <> []).
    { destruct Hsame as [_ Hbuild]. intros E. rewrite E in Hbuild.
      destruct (build sr); [congruence | inversion Hbuild]. }
    split; [eauto|].
    apply (isVersionSatisfies_build_iff v r sv Hv Hbv).
    exists sr. split; [exact Hr | now apply same_build_version_sym].
Qed.

End RangeMatcherEdges.

Lemma isVersionSatisfies_never_satisfied_witness :
  util.isVersionSatisfies (str "latest") (str "17.0.1") = Return false.
Proof.
  apply isVersionSatisfies_never_satisfied.
  - intros sr H. vm_compute in H. discriminate.
  - right. vm_compute. reflexivity.
Defined.

Lemma isVersionSatisfies_build_symmetric_witness :
  util.isVersionSatisfies (str "17.0.8+7") (str "17.0.8+7") = Return true.
Proof.
  refine (proj1 (isVersionSatisfies_build_symmetric
                   (str "17.0.8+7") (str "v17.0.8+07")
                   {| semver.major := 17; semver.minor := 0; semver.patch := 8;
                      semver.prerelease := []; semver.build := [str "7"] |}
                   _ _)).
  - vm_compute. reflexivity.
  - discriminate.
Defined.

Section Paths.
Import path.










Lemma join_cons (sep z : chars) (xs : list chars) :
  xs <> [] -> JS.join sep (z :: xs) = z ++ sep ++ JS.join sep xs.
Proof. destruct xs; [congruence | reflexivity]. Qed.








End Paths.



Section Inputs.

Lemma toUpperCase_unit_cases (a : ascii) :
  toUpperCase_unit a = [83; 83]
  \/ exists n,
      toUpperCase_unit a = [n]
      /\ (n = 84 -> a = "t"%char \/ a = "T"%char)
      /\ (n = 82 -> a = "r"%char \/ a = "R"%char)
      /\ (n = 85 -> a = "u"%char \/ a = "U"%char)
      /\ (n = 69 -> a = "e"%char \/ a = "E"%char).
Proof.
  destruct a as [[] [] [] [] [] [] [] []];
    first [ left; reflexivity
          | right; eexists; split; [reflexivity|];
            repeat split; intros H; first [discriminate H | auto] ].
Qed.

Lemma toUpperCase_unit_letter (a : ascii) (n : N) :
  toUpperCase_unit a = [n] ->
  (n = 84 -> a = "t"%char \/ a = "T"%char)
  /\ (n = 82 -> a = "r"%char \/ a = "R"%char)
  /\ (n = 85 -> a = "u"%char \/ a = "U"%char)
  /\ (n = 69 -> a = "e"%char \/ a = "E"%char).
Proof.
  destruct (toUpperCase_unit_cases a) as [E | (m & E & H)]; rewrite E;
    intros Hn; [discriminate|]. injection Hn as ->. exact H.
Qed.

Lemma toUpperCase_units_nil (s : chars) : toUpperCase_units s = [] -> s = [].
Proof.
  destruct s as [|a s]; [reflexivity|]. unfold toUpperCase_units. cbn [flat_map].
  destruct (toUpperCase_unit_cases a) as [-> | (n & -> & _)]; discriminate.
Qed.

Lemma toUpperCase_units_cons (s : chars) (n : N) (rest : list N) :
  toUpperCase_units s = n :: rest -> n <> 83 ->
  exists a s', s = a :: s' /\ toUpperCase_unit a = [n] /\ toUpperCase_units s' = rest.
Proof.
  destruct s as [|a s]; [discriminate|]. unfold toUpperCase_units. cbn [flat_map].
  destruct (toUpperCase_unit_cases a) as [E | (m & E & _)]; rewrite E.
  - intros H Hn. injection H as H _. congruence.
  - intros H _. injection H as -> H. exists a, s. auto.
Qed.

Lemma toUpperCase_units_TRUE (s : chars) :
  toUpperCase_units s = units (str "TRUE") <-> spells_true s.
Proof.
  split.
  - change (units (str "TRUE")) with [84; 82; 85; 69]. intros H.
    apply toUpperCase_units_cons in H as (t & s1 & -> & Ht & H); [|discriminate].
    apply toUpperCase_units_cons in H as (r & s2 & -> & Hr & H); [|discriminate].
    apply toUpperCase_units_cons in H as (u & s3 & -> & Hu & H); [|discriminate].
    apply toUpperCase_units_cons in H as (e & s4 & -> & He & H); [|discriminate].
    apply toUpperCase_units_nil in H. subst s4.
    exists t, r, u, e. split; [reflexivity|].
    pose proof (proj1 (toUpperCase_unit_letter _ _ Ht) eq_refl).
    pose proof (proj1 (proj2 (toUpperCase_unit_letter _ _ Hr)) eq_refl).
    pose proof (proj1 (proj2 (proj2 (toUpperCase_unit_letter _ _ Hu))) eq_refl).
    pose proof (proj2 (proj2 (proj2 (toUpperCase_unit_letter _ _ He))) eq_refl).
    auto.
  - intros (t & r & u & e & -> & [-> | ->] & [-> | ->] & [-> | ->] & [-> | ->]);
      reflexivity.
Qed.

(** X10. [getBooleanInput] is [true] exactly when the text that
    [core.getInput] returns is one of the spellings of [true] in upper or
    lower case, or when that text is empty and the default is [true]; any
    other non-empty text gives [false] whatever the default. *)
Theorem getBooleanInput_true (getInput : chars -> chars) (inputName : chars)
        (defaultValue : bool) :
  util.getBooleanInput getInput inputName defaultValue = true
  <-> spells_true (getInput inputName)
      \/ (getInput inputName = [] /\ defaultValue = true).
Proof.
  unfold util.getBooleanInput. rewrite bool_decide_eq_true.
  destruct (getInput inputName) as [|a s] eqn:E; cbn [falsy].
  - destruct defaultValue.
    + split; [auto | intros _; reflexivity].
    + split; [discriminate|].
      intros [(t & r & u & e & H & _) | [_ H]]; discriminate.
  - rewrite toUpperCase_units_TRUE. split; [auto|].
    intros [H | [H _]]; [exact H | discriminate].
Qed.

End Inputs.

Lemma getBooleanInput_true_witness :
  util.getBooleanInput (fun _ => str "True") (str "check-latest") false = true.
Proof.
  apply getBooleanInput_true. left.
  exists "T"%char, "r"%char, "u"%char, "e"%char. cbn. tauto.
Defined.

Section ArchiveNames.
Import path.




Lemma endsWith_app (p s : chars) : endsWith p (s ++ p) = true.
Proof.
  unfold endsWith. rewrite rev_app_distr.
  induction (rev p) as [|a r IH]; [reflexivity|].
  cbn [app startsWith]. now rewrite Ascii.eqb_refl.
Qed.



(** X12. Without an extension argument, every path that ends in [.tar.gz]
    goes to the tar extractor, and the extension that
    [getDownloadArchiveExtension] names for a platform always selects the
    zip extractor (on [win32]) or the tar extractor (elsewhere), never the
    7z one, whatever the file is called. *)
Theorem extractJdkFile_download_extension (toolPath : chars) (platform : string) :
  util.extractJdkFile (toolPath ++ str ".tar.gz") None
  = util.extractTar (toolPath ++ str ".tar.gz")
  /\ util.extractJdkFile toolPath
       (Some (list_ascii_of_string (util.getDownloadArchiveExtension platform)))
     = if String.eqb platform "win32" then util.extractZip toolPath
       else util.extractTar toolPath.
Proof.
  split.
  - unfold util.extractJdkFile, util.format_of. cbn [falsy].
    now rewrite endsWith_app.
  - unfold util.getDownloadArchiveExtension.
    destruct (String.eqb platform "win32"); reflexivity.
Qed.

End ArchiveNames.


Section Components.

Lemma split_aux_not_nil (c : ascii) (cur s : chars) : split_aux [c] cur 0 s <> [].
Proof.
  revert cur. induction s as [|a s IH]; intros cur; cbn [split_aux];
    [discriminate|].
  destruct (startsWith [c] (a :: s)); [discriminate | apply IH].
Qed.

Lemma startsWith_char (c a : ascii) (s : chars) :
  startsWith [c] (a :: s) = Ascii.eqb c a.
Proof. cbn [startsWith]. apply andb_true_r. Qed.

(** Joining the pieces of a split with the separator gives the string
    back. *)
Lemma join_split_aux (c : ascii) (cur s : chars) :
  join [c] (split_aux [c] cur 0 s) = rev cur ++ s.
Proof.
  revert cur. induction s as [|a s IH]; intros cur.
  - cbn [split_aux join]. now rewrite app_nil_r.
  - cbn [split_aux]. rewrite startsWith_char.
    destruct (Ascii.eqb_spec c a) as [<- | Hne].
    + change (List.length [c] - 1)%nat with 0%nat.
      rewrite join_cons by apply split_aux_not_nil. now rewrite IH.
    + rewrite IH. cbn [rev]. now rewrite <- app_assoc.
Qed.

Lemma length_split_aux (c : ascii) (cur s : chars) :
  List.length (split_aux [c] cur 0 s)
  = S (List.length (List.filter (Ascii.eqb c) s)).
Proof.
  revert cur. induction s as [|a s IH]; intros cur.
  - reflexivity.
  - cbn [split_aux List.filter]. rewrite startsWith_char.
    destruct (Ascii.eqb c a).
    + change (List.length [c] - 1)%nat with 0%nat. cbn [List.length].
      now rewrite IH.
    + apply IH.
Qed.

Lemma split_aux_pieces (c : ascii) (cur s : chars) :
  Forall (fun a => Ascii.eqb c a = false) cur ->
  Forall (Forall (fun a => Ascii.eqb c a = false)) (split_aux [c] cur 0 s).
Proof.
  revert cur. induction s as [|a s IH]; intros cur Hcur.
  - cbn [split_aux]. constructor; [|constructor]. now apply List.Forall_rev.
  - cbn [split_aux]. rewrite startsWith_char.
    destruct (Ascii.eqb c a) eqn:E.
    + constructor; [now apply List.Forall_rev|]. apply IH. constructor.
    + apply IH. now constructor.
Qed.




Lemma join_app (sep : chars) (xs ys : list chars) :
  xs <> [] -> ys <> [] ->
  join sep (xs ++ ys) = join sep xs ++ sep ++ join sep ys.
Proof.
  intros Hx Hy. induction xs as [|x xs IH]; [congruence|].
  destruct xs as [|x' xs].
  - cbn [app]. now rewrite join_cons.
  - cbn [app] in *. rewrite (join_cons sep x (x' :: xs ++ ys)) by discriminate.
    rewrite IH by discriminate. rewrite (join_cons sep x (x' :: xs)) by discriminate.
    now rewrite <- !app_assoc.
Qed.

Lemma filter_free (c : ascii) (s : chars) :
  Forall (fun a => Ascii.eqb c a = false) s -> List.filter (Ascii.eqb c) s = [].
Proof. induction 1 as [|a s Ha _ IH]; cbn [List.filter]; [|rewrite Ha]; auto. Qed.


(** X13. For a version given as a string, [convertVersionToSemver] returns
    the string itself when it has at most two dots; when it has more, the
    result is the string with its third dot replaced by [+] and nothing
    else changed. *)
Theorem convertVersionToSemver_string (s : chars) :
  let dots (x : chars) := List.length (List.filter (is_char ".") x) in
  ((dots s <= 2)%nat -> util.convertVersionToSemver (inr s) = s)
  /\ ((3 <= dots s)%nat ->
      exists main rest,
        s = main ++ str "." ++ rest
        /\ dots main = 2%nat
        /\ util.convertVersionToSemver (inr s) = main ++ str "+" ++ rest).
Proof.
  intros dots. unfold util.convertVersionToSemver, util.versionArray, split.
  pose proof (length_split_aux "." [] s) as Hlen.
  pose proof (join_split_aux "." [] s) as Hjoin.
  pose proof (split_aux_pieces "." [] s (List.Forall_nil _)) as Hpieces.
  change (List.length (List.filter (Ascii.eqb ".") s)) with (dots s) in Hlen.
  change [("."%char)] with (str ".") in *.
  set (xs := split_aux (str ".") [] 0 s) in *. cbn [rev app] in Hjoin.
  split.
  - intros Hd. replace (Nat.ltb 3 (List.length xs)) with false
      by (symmetry; apply Nat.ltb_ge; lia).
    rewrite firstn_all2 by lia. exact Hjoin.
  - intros Hd. replace (Nat.ltb 3 (List.length xs)) with true
      by (symmetry; apply Nat.ltb_lt; lia).
    exists (join (str ".") (firstn 3 xs)), (join (str ".") (skipn 3 xs)).
    destruct xs as [|a [|b [|c [|d xs]]]]; cbn [List.length] in Hlen; try lia.
    split; [|split].
    + rewrite <- Hjoin.
      apply (join_app (str ".") [a; b; c] (d :: xs)); discriminate.
    + inversion Hpieces as [|? ? Ha H1]. inversion H1 as [|? ? Hb H2].
      inversion H2 as [|? ? Hc _].
      cbn [firstn join]. unfold dots.
      change (is_char ".") with (Ascii.eqb ".").
      rewrite !List.filter_app.
      rewrite (filter_free "." a Ha), (filter_free "." b Hb), (filter_free "." c Hc).
      reflexivity.
    + reflexivity.
Qed.


End Components.
